(** * A region-based arena allocator (arena_allocator.h)

    Shallow embedding of the single-header allocator and proofs about its
    region bookkeeping.  The C code keeps a singly linked chain of
    [Region] headers, each at the base of its own [mmap]ed block, and an
    [Arena] handle with [head] and [tail] pointers into that chain.

    Modelling choices:
    - [size_t] is a 64-bit unsigned integer (LP64): a [Z] with the
      wrap-around written out by [wrap];
    - pointers are addresses in [Z], [NULL] is 0, and pointer arithmetic
      is not wrapped;
    - the [Region] header is the first 40 bytes of its mapping.  It is
      kept as a record next to the mapping's length, and a byte access
      that falls on those 40 bytes reads or rewrites the record's fields
      (five 8-byte fields, least significant byte first, as on x86-64
      and AArch64); the bytes after the header live in the byte memory
      [mem];
    - a byte access outside every live mapping is a [Fault];
    - the operating system is a function [kernel] that picks the address
      of a new mapping (or refuses), and every system call is logged;
    - a [for] loop over the chain is a [Fixpoint] on a fuel bounded by the
      number of live mappings: a chain that is longer has a cycle. *)

From stdpp Require Import gmap list fin_maps strings.
From Stdlib Require Import ZArith Lia.

Open Scope Z_scope.

(** ** Machine integers and pointers *)

Definition SIZE_BITS : Z := 64.

(** Arithmetic on [size_t] is modulo [2^64]. *)
Definition wrap (z : Z) : Z := z mod 2 ^ SIZE_BITS.

(** Pointers are addresses. *)
Abbreviation ptr := Z (only parsing).
Definition NULL : ptr := 0.

(** ** Data model *)

(** [struct Region]. *)
Record Region : Type := mkRegion {
  next : ptr;
  capacity : Z;
  count : Z;
  remaining : Z;
  bytes : ptr
}.

(** [Arena]. *)
Record Arena : Type := mkArena {
  head : ptr;
  tail : ptr
}.

(** [sizeof(Region)]: five 8-byte fields. *)
Definition ARENA_REGION_SIZE : Z := 40.

(** One live mapping: its length and the [Region] header stored at its
    base address. *)
Record Mapping : Type := mkMapping {
  map_len : Z;
  map_hdr : Region
}.

(** System calls, as they are logged. *)
Inductive syscall : Type :=
| Mmap (len : Z) (result : option ptr)
| Munmap (addr : ptr) (len : Z) (ok : bool).

(** The state of the process: caller-owned [Arena] objects by address,
    live mappings by base address, byte memory (the value of the
    [unsigned char] at each address), and the system-call log (newest
    first). *)
Record Heap : Type := mkHeap {
  arenas : gmap Z Arena;
  mappings : gmap Z Mapping;
  mem : Z -> Z;
  oslog : list syscall
}.

(** ** The monad of the C code: state, and three ways not to return *)

(** A call returns a value in a new state ([Done]), stops at a failed
    [assert] ([AssertFail]), dereferences a pointer that is [NULL] or
    holds no object of the expected type or touches a byte outside every
    live mapping ([Fault]: undefined behaviour, in practice a
    segmentation fault), or walks a chain that does not end within its
    fuel ([OutOfFuel]). *)
Inductive outcome (A : Type) : Type :=
| Done (a : A) (st : Heap)
| AssertFail
| Fault
| OutOfFuel.
Arguments Done {A} a st.
Arguments AssertFail {A}.
Arguments Fault {A}.
Arguments OutOfFuel {A}.

Definition M (A : Type) : Type := Heap -> outcome A.

Definition ret {A} (a : A) : M A := fun st => Done a st.

Definition bind {A B} (m : M A) (k : A -> M B) : M B :=
  fun st =>
    match m st with
    | Done a st' => k a st'
    | AssertFail => AssertFail
    | Fault => Fault
    | OutOfFuel => OutOfFuel
    end.

Notation "x <- c1 ;; c2" := (bind c1 (fun x => c2))
  (at level 100, c1 at next level, right associativity).
Notation "c1 ;; c2" := (bind c1 (fun _ => c2))
  (at level 100, right associativity).

(** [assert(b)]. *)
Definition assert (b : bool) : M unit :=
  fun st => if b then Done tt st else AssertFail.

Definition get : M Heap := fun st => Done st st.

(** *p for an [Arena *p]. *)
Definition load_arena (p : ptr) : M Arena :=
  fun st =>
    if p =? NULL then Fault
    else match arenas st !! p with
         | Some a => Done a st
         | None => Fault
         end.

Definition store_arena (p : ptr) (a : Arena) : M unit :=
  fun st =>
    if p =? NULL then Fault
    else match arenas st !! p with
         | Some _ =>
             Done tt (mkHeap (<[p := a]> (arenas st)) (mappings st) (mem st) (oslog st))
         | None => Fault
         end.

(** *p for a [Region *p]: the pointer must be the base of a live mapping. *)
Definition load_region (p : ptr) : M Region :=
  fun st =>
    match mappings st !! p with
    | Some m => Done (map_hdr m) st
    | None => Fault
    end.

Definition with_mappings (st : Heap) (h : gmap Z Mapping) : Heap :=
  mkHeap (arenas st) h (mem st) (oslog st).

Definition store_region (p : ptr) (r : Region) : M unit :=
  fun st =>
    match mappings st !! p with
    | Some m => Done tt (with_mappings st (<[p := mkMapping (map_len m) r]> (mappings st)))
    | None => Fault
    end.

(** Field updates of a [Region], as the functions below perform them. *)

(** [r->next = p]. *)
Definition set_next (r : Region) (p : ptr) : Region :=
  {| next := p; capacity := capacity r; count := count r;
     remaining := remaining r; bytes := bytes r |}.

(** [r->count += size; r->remaining -= size]. *)
Definition carve (r : Region) (size : Z) : Region :=
  {| next := next r; capacity := capacity r;
     count := wrap (count r + size);
     remaining := wrap (remaining r - size);
     bytes := bytes r |}.

(** [r->count = 0; r->remaining = r->capacity]. *)
Definition cleared (r : Region) : Region :=
  {| next := next r; capacity := capacity r; count := 0;
     remaining := capacity r; bytes := bytes r |}.

(** ** Bytes *)

(** Byte [k] of an 8-byte field holding [w], and the field with that
    byte replaced by the [unsigned char] value of [v]. *)
Definition byte_of (w k : Z) : Z := (w / 2 ^ (8 * k)) mod 256.

Definition with_byte (w k v : Z) : Z :=
  w + (v mod 256 - byte_of w k) * 2 ^ (8 * k).

(** The byte at offset [off] of a [Region] header: [next] at 0,
    [capacity] at 8, [count] at 16, [remaining] at 24, [bytes] at 32. *)
Definition hdr_byte (r : Region) (off : Z) : Z :=
  let k := off mod 8 in
  match off / 8 with
  | 0 => byte_of (next r) k
  | 1 => byte_of (capacity r) k
  | 2 => byte_of (count r) k
  | 3 => byte_of (remaining r) k
  | _ => byte_of (bytes r) k
  end.

Definition hdr_with_byte (r : Region) (off v : Z) : Region :=
  let k := off mod 8 in
  match off / 8 with
  | 0 => mkRegion (with_byte (next r) k v) (capacity r) (count r) (remaining r) (bytes r)
  | 1 => mkRegion (next r) (with_byte (capacity r) k v) (count r) (remaining r) (bytes r)
  | 2 => mkRegion (next r) (capacity r) (with_byte (count r) k v) (remaining r) (bytes r)
  | 3 => mkRegion (next r) (capacity r) (count r) (with_byte (remaining r) k v) (bytes r)
  | _ => mkRegion (next r) (capacity r) (count r) (remaining r) (with_byte (bytes r) k v)
  end.

(** The live mapping that holds the address [p], with its base. *)
Definition holds (p : ptr) (bm : Z * Mapping) : bool :=
  (fst bm <=? p) && (p <? fst bm + map_len (snd bm)).

Definition mapping_of (h : gmap Z Mapping) (p : ptr) : option (Z * Mapping) :=
  List.find (holds p) (map_to_list h).

(** The byte at [p], when [p] is mapped. *)
Definition peek (st : Heap) (p : ptr) : option Z :=
  match mapping_of (mappings st) p with
  | Some (base, m) =>
      if p - base <? ARENA_REGION_SIZE then Some (hdr_byte (map_hdr m) (p - base))
      else Some (mem st p)
  | None => None
  end.

(** Byte accesses: [p[i]] read and written. *)
Definition load_byte (p : ptr) : M Z :=
  fun st =>
    match peek st p with
    | Some v => Done v st
    | None => Fault
    end.

Definition store_byte (p : ptr) (v : Z) : M unit :=
  fun st =>
    match mapping_of (mappings st) p with
    | Some (base, m) =>
        if p - base <? ARENA_REGION_SIZE then
          Done tt (mkHeap (arenas st)
                          (<[base := mkMapping (map_len m)
                                       (hdr_with_byte (map_hdr m) (p - base) v)]>
                             (mappings st))
                          (mem st) (oslog st))
        else
          Done tt (mkHeap (arenas st) (mappings st)
                          (fun q => if q =? p then v else mem st q) (oslog st))
    | None => Fault
    end.

(** The run of a computation from a state, when only the final state
    matters (the state is kept when the computation does not return). *)
Definition after {A} (m : M A) (st : Heap) : Heap :=
  match m st with
  | Done _ st' => st'
  | _ => st
  end.

Definition returns {A} (o : outcome A) : bool :=
  match o with
  | Done _ _ => true
  | _ => false
  end.

Definition zero_region : Region := mkRegion NULL 0 0 0 NULL.

(** Memory with the [len] bytes from [base] set to zero. *)
Definition zero_fill (f : Z -> Z) (base len : Z) : Z -> Z :=
  fun q => if (base <=? q) && (q <? base + len) then 0 else f q.

(** Number of [mmap] calls in a log, successful or not. *)
Definition is_mmap (c : syscall) : bool :=
  match c with
  | Mmap _ _ => true
  | Munmap _ _ _ => false
  end.

Definition mmap_calls (st : Heap) : nat := length (filter (fun c => is_mmap c = true) (oslog st)).

(** Fuel for one walk over a chain: a chain without a cycle visits each
    live mapping at most once, and the walk ends with one more test. *)
Definition chain_fuel (st : Heap) : nat := S (size (mappings st)).

Section Allocator.

(** [sysconf(_SC_PAGESIZE)]. *)
Variable page_size : Z.

(** The kernel's choice of an address for [mmap(NULL, len, ...)], given
    the lengths of the live mappings by base address; [None] is
    [MAP_FAILED]. *)
Variable kernel : gmap Z Z -> Z -> option ptr.

Definition ARENA_PAGE_SIZE : Z := page_size.
Definition ARENA_REGION_DEFAULT_CAPACITY : Z := ARENA_PAGE_SIZE * 2.

(** ** The operating system *)

(** [mmap(NULL, len, PROT_READ | PROT_WRITE, MAP_ANONYMOUS | MAP_PRIVATE, -1, 0)]:
    a fresh zero-filled mapping of [len] bytes at the address the kernel
    picks. *)
Definition mmap (len : Z) : M (option ptr) :=
  fun st =>
    match kernel (map_len <$> mappings st) len with
    | Some base =>
        Done (Some base)
             (mkHeap (arenas st)
                     (<[base := mkMapping len zero_region]> (mappings st))
                     (zero_fill (mem st) base len)
                     (Mmap len (Some base) :: oslog st))
    | None =>
        Done None (mkHeap (arenas st) (mappings st) (mem st) (Mmap len None :: oslog st))
    end.

(** [munmap(addr, len)]: returns 0, or -1 for a zero length ([EINVAL]).
    While its headers are intact the allocator only ever passes the base
    and the full length of one of its mappings, which is then gone. *)
Definition munmap (addr : ptr) (len : Z) : M Z :=
  fun st =>
    if len =? 0 then
      Done (-1) (mkHeap (arenas st) (mappings st) (mem st) (Munmap addr len false :: oslog st))
    else
      Done 0 (mkHeap (arenas st) (delete addr (mappings st)) (mem st)
                     (Munmap addr len true :: oslog st)).

(** ** The allocator *)

Definition arena__align__size (size : Z) : Z :=
  let region_size := ARENA_REGION_SIZE in
  let page_size := wrap page_size in
  let size_bytes := wrap (region_size + size) in
  let size_page_aligned :=
    Z.land (wrap (size_bytes + page_size - 1)) (wrap (Z.lnot (wrap (page_size - 1)))) in
  size_page_aligned.

(** The header that [arena__new__region] writes at the base [p] of a
    mapping of [size] bytes. *)
Definition fresh_region (p : ptr) (size : Z) : Region :=
  {| next := NULL;
     capacity := wrap (size - ARENA_REGION_SIZE);
     count := 0;
     remaining := wrap (size - ARENA_REGION_SIZE);
     bytes := p + ARENA_REGION_SIZE |}.

Definition arena__new__region (size : Z) : M ptr :=
  mapped <- mmap size ;;
  match mapped with
  | None => assert false ;; ret NULL
  | Some p => store_region p (fresh_region p size) ;; ret p
  end.

Definition arena_init (arena : ptr) (size : Z) : M unit :=
  let size := arena__align__size size in
  region <- arena__new__region size ;;
  a <- load_arena arena ;;
  store_arena arena {| head := region; tail := tail a |} ;;
  a <- load_arena arena ;;
  store_arena arena {| head := head a; tail := region |}.

(** The mapping size [arena__append__region] settles on for a request. *)
Definition append_size (size : Z) : Z :=
  if size <? wrap ARENA_REGION_DEFAULT_CAPACITY
  then wrap ARENA_REGION_DEFAULT_CAPACITY
  else arena__align__size size.

Definition arena__append__region (arena : ptr) (size : Z) : M unit :=
  let size := append_size size in
  region <- arena__new__region size ;;
  a <- load_arena arena ;;
  t <- load_region (tail a) ;;
  store_region (tail a) (set_next t region) ;;
  a <- load_arena arena ;;
  store_arena arena {| head := head a; tail := region |}.

(** The search loop of [arena_alloc]: [Some p] when a region of the
    chain from [curr] had room, [None] when the loop ran off the end. *)
Fixpoint alloc_scan (fuel : nat) (curr : ptr) (size : Z) : M (option ptr) :=
  match fuel with
  | O => fun _ => OutOfFuel
  | S fuel' =>
      if curr =? NULL then ret None
      else
        r <- load_region curr ;;
        if size <=? remaining r then
          let p := bytes r + count r in
          store_region curr (carve r size) ;;
          ret (Some p)
        else alloc_scan fuel' (next r) size
  end.

Definition arena_alloc (arena : ptr) (size : Z) : M ptr :=
  assert (negb (arena =? NULL)) ;;
  a <- load_arena arena ;;
  assert (negb (head a =? NULL)) ;;
  st <- get ;;
  found <- alloc_scan (chain_fuel st) (head a) size ;;
  match found with
  | Some p => ret p
  | None =>
      arena__append__region arena size ;;
      a <- load_arena arena ;;
      curr <- load_region (tail a) ;;
      ret (bytes curr + count curr)
  end.

(** The copy loop of [arena_realloc]: [n] more bytes from index [i]. *)
Fixpoint copy_bytes (n : nat) (i : Z) (new_ptr old_ptr : ptr) : M unit :=
  match n with
  | O => ret tt
  | S n' =>
      v <- load_byte (old_ptr + i) ;;
      store_byte (new_ptr + i) v ;;
      copy_bytes n' (i + 1) new_ptr old_ptr
  end.

Definition arena_realloc (arena : ptr) (old_ptr : ptr) (old_size new_size : Z) : M ptr :=
  assert (negb (arena =? NULL)) ;;
  if new_size <? old_size then ret old_ptr
  else
    new_ptr <- arena_alloc arena new_size ;;
    copy_bytes (Z.to_nat old_size) 0 new_ptr old_ptr ;;
    ret new_ptr.

Fixpoint reset_loop (fuel : nat) (curr : ptr) : M unit :=
  match fuel with
  | O => fun _ => OutOfFuel
  | S fuel' =>
      if curr =? NULL then ret tt
      else
        r <- load_region curr ;;
        store_region curr (cleared r) ;;
        reset_loop fuel' (next r)
  end.

Definition arena_reset (arena : ptr) : M unit :=
  assert (negb (arena =? NULL)) ;;
  a <- load_arena arena ;;
  st <- get ;;
  reset_loop (chain_fuel st) (head a).

Definition arena__free__region (region : ptr) : M unit :=
  assert (negb (region =? NULL)) ;;
  r <- load_region region ;;
  let size_bytes := wrap (ARENA_REGION_SIZE + capacity r) in
  ret_code <- munmap region size_bytes ;;
  assert (ret_code =? 0).

Fixpoint destroy_loop (fuel : nat) (curr : ptr) : M unit :=
  match fuel with
  | O => fun _ => OutOfFuel
  | S fuel' =>
      if curr =? NULL then ret tt
      else
        let temp := curr in
        r <- load_region curr ;;
        let curr := next r in
        arena__free__region temp ;;
        destroy_loop fuel' curr
  end.

Definition arena_destroy (arena : ptr) : M unit :=
  a <- load_arena arena ;;
  st <- get ;;
  destroy_loop (chain_fuel st) (head a) ;;
  a <- load_arena arena ;;
  store_arena arena {| head := NULL; tail := tail a |} ;;
  a <- load_arena arena ;;
  store_arena arena {| head := head a; tail := NULL |}.

(** ** Printing *)

(** One call of [printf]: its format string and the values of its
    arguments.  What [arena_dump] writes to the standard output is the
    list of its calls, in order, returned as its value. *)
Inductive printf_call : Type :=
| Printf (fmt : string) (args : list Z).

(** The text [s] followed by a newline character, the ["...\n"] of the
    C source. *)
Definition line (s : string) : string :=
  String.append s (String (Ascii.ascii_of_nat 10) EmptyString).

Definition arena__region__dump (region : ptr) : M (list printf_call) :=
  assert (negb (region =? NULL)) ;;
  r <- load_region region ;;
  ret [ Printf (line "Address:    %p") [region];
        Printf (line "Next:       %p") [next r];
        Printf (line "Capacity:   %zu bytes") [capacity r];
        Printf (line "Used:       %zu bytes") [count r];
        Printf (line "Free:       %zu bytes") [remaining r];
        Printf (line "") [] ].

(** The loop of [arena_dump], from the region [curr] with the counter at
    [cnt]. *)
Fixpoint dump_loop (fuel : nat) (curr : ptr) (cnt : Z) : M (list printf_call) :=
  match fuel with
  | O => fun _ => OutOfFuel
  | S fuel' =>
      if curr =? NULL then ret []
      else
        out <- arena__region__dump curr ;;
        r <- load_region curr ;;
        rest <- dump_loop fuel' (next r) (wrap (cnt + 1)) ;;
        ret (Printf (line "===> Region %d:") [cnt] :: out ++ rest)
  end.

Definition arena_dump (arena : ptr) : M (list printf_call) :=
  assert (negb (arena =? NULL)) ;;
  a <- load_arena arena ;;
  st <- get ;;
  body <- dump_loop (chain_fuel st) (head a) 0 ;;
  ret (Printf (line "=============================") [] :: body ++
       [ Printf (line "=============================") []; Printf (line "") [] ]).

(** ** Sequences of calls on one arena *)

Inductive call : Type :=
| Init (size : Z)
| Alloc (size : Z)
| Realloc (old_ptr : ptr) (old_size new_size : Z)
| Reset
| Destroy.

(** One call, with the pointer it returns ([NULL] for a [void] function). *)
Definition do_call (arena : ptr) (c : call) : M ptr :=
  match c with
  | Init size => arena_init arena size ;; ret NULL
  | Alloc size => arena_alloc arena size
  | Realloc old_ptr old_size new_size => arena_realloc arena old_ptr old_size new_size
  | Reset => arena_reset arena ;; ret NULL
  | Destroy => arena_destroy arena ;; ret NULL
  end.

(** A sequence of calls, with the pointers returned in order. *)
Fixpoint run (arena : ptr) (cs : list call) : M (list ptr) :=
  match cs with
  | [] => ret []
  | c :: cs' =>
      p <- do_call arena c ;;
      ps <- run arena cs' ;;
      ret (p :: ps)
  end.

(** The [size_t] arguments of a call are in range. *)
Definition size_ok (n : Z) : bool := (0 <=? n) && (n <? 2 ^ SIZE_BITS).

Definition call_ok (c : call) : bool :=
  match c with
  | Init size => size_ok size
  | Alloc size => size_ok size
  | Realloc _ old_size new_size => size_ok old_size && size_ok new_size
  | Reset => true
  | Destroy => true
  end.

(** ** Chains of regions *)

(** [chain h p l]: following [next] from [p] in the headers of [h] visits
    exactly the addresses [l] and then reaches [NULL]. *)
Fixpoint chain (h : gmap Z Mapping) (p : ptr) (l : list ptr) : Prop :=
  match l with
  | [] => p = NULL
  | x :: l' =>
      p = x /\ x <> NULL /\
      exists m, h !! x = Some m /\ chain h (next (map_hdr m)) l'
  end.

(** [reaches h p x]: the region at [x] is on the path of [next] links
    that starts at [p]. *)
Inductive reaches (h : gmap Z Mapping) : ptr -> ptr -> Prop :=
| reaches_here p m : p <> NULL -> h !! p = Some m -> reaches h p p
| reaches_next p m x :
    p <> NULL -> h !! p = Some m -> reaches h (next (map_hdr m)) x -> reaches h p x.

(** The invariant of one region's bookkeeping. *)
Definition region_inv (r : Region) : Prop :=
  0 <= count r <= capacity r /\ remaining r = capacity r - count r.

(** The fields of a region are [size_t] values. *)
Definition region_typed (r : Region) : Prop :=
  0 <= capacity r < 2 ^ SIZE_BITS.

(** Every region of [l] has a header in [h] that satisfies [P]. *)
Definition all_regions (h : gmap Z Mapping) (l : list ptr) (P : Region -> Prop) : Prop :=
  forall x, x ∈ l -> exists m, h !! x = Some m /\ P (map_hdr m).

(** An initialised arena at [a]: its chain is [l], not empty, [tail]
    points at the last region, and the bookkeeping of every region is
    consistent. *)
Definition arena_wf (st : Heap) (a : ptr) (l : list ptr) : Prop :=
  a <> NULL /\
  exists ar, arenas st !! a = Some ar /\
    chain (mappings st) (head ar) l /\
    last l = Some (tail ar) /\
    all_regions (mappings st) l (fun r => region_inv r /\ region_typed r).

(** A zeroed or destroyed arena at [a]. *)
Definition arena_dead (st : Heap) (a : ptr) : Prop :=
  a <> NULL /\ arenas st !! a = Some {| head := NULL; tail := NULL |}.

(** What the allocator needs from the kernel: a new mapping is never at
    address 0, has a positive length, and does not overlap a live one. *)
Definition kernel_ok : Prop :=
  forall m len base,
    kernel m len = Some base ->
    base <> NULL /\ m !! base = None /\ 0 < len /\
    forall b l, m !! b = Some l -> base + len <= b \/ b + l <= base.

(** A block of [n] bytes at [p] lies in the usable bytes of a live mapping. *)
Definition addressable (st : Heap) (p : ptr) (n : Z) : Prop :=
  exists b m, mappings st !! b = Some m /\
    b + ARENA_REGION_SIZE <= p /\ 0 <= n /\ p + n <= b + map_len m.

(** Two blocks share no byte. *)
Definition disjoint_blocks (p : ptr) (n : Z) (q : ptr) (k : Z) : Prop :=
  p + n <= q \/ q + k <= p.

(** ** States after a call, written out *)

(** The state after [arena_alloc] carved [size] bytes from the region at
    [x], whose mapping was [m]. *)
Definition carved (st : Heap) (x : ptr) (m : Mapping) (size : Z) : Heap :=
  with_mappings st (<[x := mkMapping (map_len m) (carve (map_hdr m) size)]> (mappings st)).

(** The state after a region of [msz] bytes was mapped at [base] and
    linked after the tail [t] (whose mapping was [mt]) of the arena [ar]
    at [a]. *)
Definition grown (st : Heap) (a : ptr) (ar : Arena) (mt : Mapping) (base msz : Z) : Heap :=
  mkHeap (<[a := {| head := head ar; tail := base |}]> (arenas st))
         (<[tail ar := mkMapping (map_len mt) (set_next (map_hdr mt) base)]>
            (<[base := mkMapping msz (fresh_region base msz)]> (mappings st)))
         (zero_fill (mem st) base msz)
         (Mmap msz (Some base) :: oslog st).

(** The state after [arena_init] mapped [msz] bytes at [base]. *)
Definition initialised (st : Heap) (a : ptr) (base msz : Z) : Heap :=
  mkHeap (<[a := {| head := base; tail := base |}]> (arenas st))
         (<[base := mkMapping msz (fresh_region base msz)]> (mappings st))
         (zero_fill (mem st) base msz)
         (Mmap msz (Some base) :: oslog st).

(** One mapping with its region emptied, and a map of mappings with the
    regions at [l] emptied: what the loop of [arena_reset] leaves. *)
Definition clear_mapping (m : Mapping) : Mapping :=
  mkMapping (map_len m) (cleared (map_hdr m)).

Fixpoint reset_all (l : list ptr) (h : gmap Z Mapping) : gmap Z Mapping :=
  match l with
  | [] => h
  | x :: l' => reset_all l' (alter clear_mapping x h)
  end.


(** The arena at [a] is initialised, or zeroed/destroyed. *)
Definition arena_inv (st : Heap) (a : ptr) : Prop :=
  (exists l, arena_wf st a l) \/ arena_dead st a.

(** Total of the sizes of a sequence of requests. *)
Definition total (sizes : list Z) : Z := foldr Z.add 0 sizes.

End Allocator.

(** ** Layouts, logs and printed text, written out *)

(** The addresses of blocks of the given sizes laid end to end from
    [start]. *)
Fixpoint offsets (start : Z) (sizes : list Z) : list Z :=
  match sizes with
  | [] => []
  | n :: sizes' => start :: offsets (start + n) sizes'
  end.


(** The region that [arena__append__region] would map for a request of
    [size] bytes has room for the header and the request. *)
Definition fits (page_size size : Z) : bool :=
  size + ARENA_REGION_SIZE <=? append_size page_size size.

(** A growing [arena_realloc] asks for a size that [fits]. *)
Definition call_fits (page_size : Z) (c : call) : bool :=
  match c with
  | Realloc _ old_size new_size => (new_size <? old_size) || fits page_size new_size
  | _ => true
  end.

(** Pages are a power of two, at least as large as a [Region] header,
    and two of them do not overflow [size_t]. *)
Definition pages (page_size k : Z) : Prop :=
  page_size = 2 ^ k /\ 0 <= k /\ ARENA_REGION_SIZE <= 2 ^ k /\
  2 * 2 ^ k < 2 ^ SIZE_BITS.

(** Every mapping of [st] is still there in [st'], with its length. *)
Definition stays (st st' : Heap) : Prop :=
  forall y my, mappings st !! y = Some my ->
    exists my', mappings st' !! y = Some my' /\ map_len my' = map_len my.

(** No two live mappings share an address. *)
Definition apart (h : gmap Z Mapping) : Prop :=
  forall b1 m1 b2 m2, h !! b1 = Some m1 -> h !! b2 = Some m2 -> b1 <> b2 ->
    b1 + map_len m1 <= b2 \/ b2 + map_len m2 <= b1.

(** The mapping [m] at [x] is as [arena__new__region] made it: it has
    room for the header, the header's [capacity] is the length less the
    header and [bytes] points just past the header. *)
Definition region_at (x : ptr) (m : Mapping) : Prop :=
  ARENA_REGION_SIZE <= map_len m < 2 ^ SIZE_BITS /\
  capacity (map_hdr m) = map_len m - ARENA_REGION_SIZE /\
  bytes (map_hdr m) = x + ARENA_REGION_SIZE.

Definition sized (h : gmap Z Mapping) (l : list ptr) : Prop :=
  forall x, x ∈ l -> exists m, h !! x = Some m /\ region_at x m.

(** The arena at [a] is initialised with the chain [l], its regions are
    as [arena__new__region] made them, and no two mappings of the
    process overlap. *)
Definition built (st : Heap) (a : ptr) (l : list ptr) : Prop :=
  apart (mappings st) /\ arena_wf st a l /\ sized (mappings st) l.

(** The arena at [a] was built by the allocator, or is zeroed/destroyed. *)
Definition arena_built (st : Heap) (a : ptr) : Prop :=
  apart (mappings st) /\
  ((exists l, arena_wf st a l /\ sized (mappings st) l) \/ arena_dead st a).

(** The regions [l] keep their place and size from [st] to [st'], and
    their [count] does not go down. *)
Definition kept (st st' : Heap) (l : list ptr) : Prop :=
  forall x m, x ∈ l -> mappings st !! x = Some m ->
    exists m', mappings st' !! x = Some m' /\
      capacity (map_hdr m') = capacity (map_hdr m) /\
      bytes (map_hdr m') = bytes (map_hdr m) /\
      map_len m' = map_len m /\
      count (map_hdr m) <= count (map_hdr m').

(** The [munmap] calls that release the regions [l], in order. *)
Definition munmaps (h : gmap Z Mapping) (l : list ptr) : list syscall :=
  map (fun x => Munmap x (default 0 (map_len <$> h !! x)) true) l.

(** The mappings left when those at [l] are released. *)
Definition unmapped (l : list ptr) (h : gmap Z Mapping) : gmap Z Mapping :=
  foldr delete h l.

(** What [arena_dump] prints for the region at [x] with header [r], the
    [i]-th of the chain. *)
Definition region_text (i : Z) (x : ptr) (r : Region) : list printf_call :=
  [ Printf (line "===> Region %d:") [i];
    Printf (line "Address:    %p") [x];
    Printf (line "Next:       %p") [next r];
    Printf (line "Capacity:   %zu bytes") [capacity r];
    Printf (line "Used:       %zu bytes") [count r];
    Printf (line "Free:       %zu bytes") [remaining r];
    Printf (line "") [] ].

(** The same for the regions [l], numbered from [i]. *)
Fixpoint chain_text (h : gmap Z Mapping) (i : Z) (l : list ptr) : list printf_call :=
  match l with
  | [] => []
  | x :: l' =>
      region_text (wrap i) x (default zero_region (map_hdr <$> h !! x))
      ++ chain_text h (i + 1) l'
  end.

(** ** Checkers *)

(** [chain], [all_regions] and [arena_wf] as tests that compute. *)
Fixpoint chainb (h : gmap Z Mapping) (p : ptr) (l : list ptr) : bool :=
  match l with
  | [] => p =? NULL
  | x :: l' =>
      (p =? x) && negb (x =? NULL) &&
      match h !! x with
      | Some m => chainb h (next (map_hdr m)) l'
      | None => false
      end
  end.

Definition all_regionsb (h : gmap Z Mapping) (l : list ptr) (f : Region -> bool) : bool :=
  forallb (fun x => match h !! x with
                    | Some m => f (map_hdr m)
                    | None => false
                    end) l.

Definition region_okb (r : Region) : bool :=
  (0 <=? count r) && (count r <=? capacity r) &&
  (remaining r =? capacity r - count r) &&
  (0 <=? capacity r) && (capacity r <? 2 ^ SIZE_BITS).

Definition arena_wfb (st : Heap) (a : ptr) (l : list ptr) : bool :=
  negb (a =? NULL) &&
  match arenas st !! a with
  | Some ar =>
      chainb (mappings st) (head ar) l &&
      match last l with
      | Some t => t =? tail ar
      | None => false
      end &&
      all_regionsb (mappings st) l region_okb
  | None => false
  end.

(** [apart] and [built] as tests that compute. *)
Definition apartb (h : gmap Z Mapping) : bool :=
  forallb (fun bm1 =>
    forallb (fun bm2 =>
      (fst bm1 =? fst bm2) ||
      (fst bm1 + map_len (snd bm1) <=? fst bm2) ||
      (fst bm2 + map_len (snd bm2) <=? fst bm1)) (map_to_list h)) (map_to_list h).



(** The value a computation returns, if it returns. *)
Definition result {A} (o : outcome A) : option A :=
  match o with
  | Done a _ => Some a
  | _ => None
  end.

(** The blocks a sequence of calls handed out: the pointer and the size
    of each [Alloc]. *)
Fixpoint blocks (cs : list call) (ps : list ptr) : list (ptr * Z) :=
  match cs, ps with
  | Alloc n :: cs', p :: ps' => (p, n) :: blocks cs' ps'
  | _ :: cs', _ :: ps' => blocks cs' ps'
  | _, _ => []
  end.

(** Two blocks share a byte. *)
Definition overlap (b1 b2 : ptr * Z) : bool :=
  (fst b1 <? fst b2 + snd b2) && (fst b2 <? fst b1 + snd b1).

(** [addressable], as a test on the mapping at base [b]. *)
Definition inside (st : Heap) (b : ptr) (p : ptr) (n : Z) : bool :=
  match mappings st !! b with
  | Some m => (b + ARENA_REGION_SIZE <=? p) && (0 <=? n) && (p + n <=? b + map_len m)
  | None => false
  end.

(** ** A concrete machine, for examples *)

(** A kernel that places each new mapping above every live one, starting
    at 64 KiB, and refuses lengths that are zero or beyond 2^47. *)
Definition top_of (m : gmap Z Z) : Z :=
  map_fold (fun b l acc => Z.max acc (Z.max (b + 1) (b + l))) 65536 m.

Definition bump_kernel (m : gmap Z Z) (len : Z) : option ptr :=
  if (0 <? len) && (len <? 2 ^ 47) then Some (top_of m) else None.

(** A kernel that places each new mapping directly below the lowest live
    one, starting below 1 MiB, as long as it stays above 64 KiB (the
    top-down placement of Linux). *)
Definition bottom_of (m : gmap Z Z) : Z :=
  map_fold (fun b _ acc => Z.min acc b) 1048576 m.

Definition down_kernel (m : gmap Z Z) (len : Z) : option ptr :=
  if (0 <? len) && (len <=? bottom_of m - 65536) then Some (bottom_of m - len) else None.

(** The address of the caller's [Arena] object. *)
Definition the_arena : ptr := 4096.

(** A process with one zeroed [Arena] ([Arena arena = {0};]) and no
    mapping. *)
Definition boot : Heap :=
  mkHeap {[ the_arena := {| head := NULL; tail := NULL |} ]} ∅ (fun _ => 0) [].

(** Pages of 4096 bytes, as on x86-64 Linux. *)
Definition page4k : Z := 4096.

(** The state after a sequence of calls on [the_arena] from [boot]. *)
Definition booted (cs : list call) : Heap :=
  after (run page4k bump_kernel the_arena cs) boot.

(** [init(1)] mapped one page at 65536; the growth of a later request
    mapped two pages above it. *)
Definition first_region : ptr := 65536.
Definition second_region : ptr := 69632.

(** The state after a sequence of calls on [the_arena] from [boot] on a
    machine that places mappings top-down. *)
Definition down_booted (cs : list call) : Heap :=
  after (run page4k down_kernel the_arena cs) boot.

(** There [init(1)] maps one page at 1044480, just below 1 MiB, and each
    growth two pages directly below the lowest mapping. *)
Definition high_region : ptr := 1044480.
Definition mid_region : ptr := 1036288.
Definition low_region : ptr := 1028096.

(** What a call left behind: the value returned, the arena at [a] and
    the mappings at the addresses [xs]. *)
Definition outlook {A} (o : outcome A) (a : ptr) (xs : list ptr)
  : option (A * option Arena * list (option Mapping)) :=
  match o with
  | Done v st => Some (v, arenas st !! a, map (fun x => mappings st !! x) xs)
  | _ => None
  end.


(** * Proofs *)

Section Proofs.

Variable page_size : Z.
Variable kernel : gmap Z Z -> Z -> option ptr.

Local Abbreviation arena__align__size := (arena__align__size page_size).
Local Abbreviation arena__new__region := (arena__new__region kernel).
Local Abbreviation arena_init := (arena_init page_size kernel).
Local Abbreviation append_size := (append_size page_size).
Local Abbreviation arena__append__region := (arena__append__region page_size kernel).
Local Abbreviation arena_alloc := (arena_alloc page_size kernel).
Local Abbreviation arena_realloc := (arena_realloc page_size kernel).
Local Abbreviation do_call := (do_call page_size kernel).
Local Abbreviation run := (run page_size kernel).
Local Abbreviation kernel_ok := (kernel_ok kernel).
Local Abbreviation mmap := (mmap kernel).
Local Abbreviation fits := (fits page_size).
Local Abbreviation call_fits := (call_fits page_size).
Local Abbreviation pages := (pages page_size).

(** ** Steps of the monad *)

Lemma bind_step {A B} (m : M A) (k : A -> M B) st a st' :
  m st = Done a st' -> bind m k st = k a st'.
Proof. intros H. unfold bind. now rewrite H. Qed.

(** [step H], with [H : m st = Done a st'], runs the first computation of
    a sequence in the goal. *)
Tactic Notation "step" uconstr(H) := rewrite (bind_step _ _ _ _ _ H).

Lemma bind_done {A B} (m : M A) (k : A -> M B) st b st2 :
  bind m k st = Done b st2 ->
  exists a st1, m st = Done a st1 /\ k a st1 = Done b st2.
Proof.
  unfold bind. destruct (m st) as [a st1| | |] eqn:E; try discriminate.
  intros H. exists a, st1. split; [reflexivity | exact H].
Qed.

Lemma load_arena_step a ar st :
  a <> NULL -> arenas st !! a = Some ar -> load_arena a st = Done ar st.
Proof.
  intros Ha Hl. unfold load_arena.
  destruct (Z.eqb_spec a NULL) as [E|_]; [contradiction|]. now rewrite Hl.
Qed.

Lemma load_arena_done a ar st st' :
  load_arena a st = Done ar st' ->
  a <> NULL /\ arenas st !! a = Some ar /\ st' = st.
Proof.
  unfold load_arena. destruct (Z.eqb_spec a NULL) as [E|N]; [discriminate|].
  destruct (arenas st !! a) as [x|] eqn:E; [|discriminate].
  intros H. injection H as -> ->. auto.
Qed.

Lemma store_arena_step a ar ar' st :
  a <> NULL -> arenas st !! a = Some ar ->
  store_arena a ar' st =
  Done tt (mkHeap (<[a := ar']> (arenas st)) (mappings st) (mem st) (oslog st)).
Proof.
  intros Ha Hl. unfold store_arena.
  destruct (Z.eqb_spec a NULL) as [E|_]; [contradiction|]. now rewrite Hl.
Qed.

Lemma load_region_step p m st :
  mappings st !! p = Some m -> load_region p st = Done (map_hdr m) st.
Proof. intros H. unfold load_region. now rewrite H. Qed.

Lemma store_region_step p m r st :
  mappings st !! p = Some m ->
  store_region p r st =
  Done tt (with_mappings st (<[p := mkMapping (map_len m) r]> (mappings st))).
Proof. intros H. unfold store_region. now rewrite H. Qed.

(** ** Chains *)

Lemma chain_lookup h p l x :
  chain h p l -> x ∈ l -> x <> NULL /\ exists m, h !! x = Some m.
Proof.
  revert p. induction l as [|y l IH]; intros p Hc Hx.
  - inversion Hx.
  - destruct Hc as (-> & Hy & m & Hm & Hc).
    apply elem_of_cons in Hx as [->|Hx]; [eauto|].
    eapply IH; eauto.
Qed.

Lemma chain_functional h p l1 l2 :
  chain h p l1 -> chain h p l2 -> l1 = l2.
Proof.
  revert p l2. induction l1 as [|x l1 IH]; intros p [|y l2] H1 H2; simpl in *.
  - reflexivity.
  - destruct H2 as (-> & Hy & _). congruence.
  - destruct H1 as (-> & Hx & _). congruence.
  - destruct H1 as (-> & Hx & m1 & Hm1 & H1).
    destruct H2 as (<- & _ & m2 & Hm2 & H2).
    rewrite Hm1 in Hm2. injection Hm2 as <-.
    f_equal. eapply IH; eauto.
Qed.

Lemma chain_suffix h p l1 l2 :
  chain h p (l1 ++ l2) -> exists q, chain h q l2.
Proof.
  revert p. induction l1 as [|x l1 IH]; intros p H; simpl in *.
  - eauto.
  - destruct H as (_ & _ & m & _ & H). eauto.
Qed.

Lemma chain_NoDup h p l : chain h p l -> NoDup l.
Proof.
  revert p. induction l as [|x l IH]; intros p H.
  - constructor.
  - pose proof H as H0. destruct H as (-> & Hx & m & Hm & H).
    constructor; [|eauto].
    intros Hin. apply list_elem_of_split in Hin as (l1 & l2 & ->).
    destruct (chain_suffix _ _ _ _ H) as (q & Hq).
    pose proof Hq as Hq0. destruct Hq as (-> & _).
    pose proof (chain_functional _ _ _ _ H0 Hq0) as E.
    apply (f_equal length) in E. simpl in E. rewrite length_app in E. simpl in E. lia.
Qed.

(** A chain only depends on the [next] fields of its own regions. *)
Lemma chain_ext h h' p l :
  (forall x m, x ∈ l -> h !! x = Some m ->
     exists m', h' !! x = Some m' /\ next (map_hdr m') = next (map_hdr m)) ->
  chain h p l -> chain h' p l.
Proof.
  revert p. induction l as [|y l IH]; intros p Hext Hc; simpl in *.
  - exact Hc.
  - destruct Hc as (-> & Hy & m & Hm & Hc).
    destruct (Hext y m) as (m' & Hm' & Hn); [left | exact Hm |].
    split; [reflexivity|]. split; [exact Hy|].
    exists m'. split; [exact Hm'|]. rewrite Hn.
    apply IH; [|exact Hc].
    intros x mx Hx. apply Hext. now right.
Qed.

Lemma chain_length h p l : chain h p l -> (length l <= size h)%nat.
Proof.
  intros Hc.
  assert (Hsub : l ⊆+ (map_to_list h).*1).
  { apply NoDup_submseteq; [eapply chain_NoDup; eauto|].
    intros x Hx. destruct (chain_lookup _ _ _ _ Hc Hx) as (_ & m & Hm).
    apply list_elem_of_fmap. exists (x, m). split; [reflexivity|].
    now apply elem_of_map_to_list. }
  apply submseteq_length in Hsub.
  rewrite length_fmap in Hsub. now rewrite length_map_to_list in Hsub.
Qed.

Lemma chain_fuel_enough st p l :
  chain (mappings st) p l -> (length l < chain_fuel st)%nat.
Proof. intros H. apply chain_length in H. unfold chain_fuel. lia. Qed.

Lemma chain_last_next h p l t :
  chain h p l -> last l = Some t ->
  t ∈ l /\ exists m, h !! t = Some m /\ next (map_hdr m) = NULL.
Proof.
  revert p. induction l as [|x l IH]; intros p Hc Hl; [discriminate|].
  destruct Hc as (-> & Hx & m & Hm & Hc).
  destruct l as [|y l'].
  - simpl in Hl. injection Hl as <-. split; [left|]. exists m. auto.
  - rewrite last_cons_cons in Hl. destruct (IH _ Hc Hl) as (Hin & Ht).
    split; [now right | exact Ht].
Qed.

(** Linking a new region after the last one extends the chain. *)
Lemma chain_snoc h p l t mt b mb :
  chain h p l -> last l = Some t -> h !! t = Some mt ->
  b ∉ l -> b <> NULL -> h !! b = Some mb -> next (map_hdr mb) = NULL ->
  chain (<[t := mkMapping (map_len mt) (set_next (map_hdr mt) b)]> h) p (l ++ [b]).
Proof.
  intros Hc Hl Ht Hb Hb0 Hmb Hnb.
  pose proof (chain_NoDup _ _ _ Hc) as Hnd.
  revert p Hc Hl Hb Hnd. induction l as [|x l IH]; intros p Hc Hl Hb Hnd; [discriminate|].
  destruct Hc as (-> & Hx & m & Hm & Hc).
  apply not_elem_of_cons in Hb as [Hbx Hb].
  apply NoDup_cons in Hnd as [Hxl Hnd].
  destruct l as [|y l'].
  - simpl in Hl. injection Hl as <-. rewrite Hm in Ht. injection Ht as <-.
    simpl in Hc. simpl.
    split; [reflexivity|]. split; [exact Hx|].
    eexists. split; [apply lookup_insert_eq|]. simpl.
    split; [reflexivity|]. split; [exact Hb0|].
    exists mb. split; [|exact Hnb].
    rewrite lookup_insert_ne; [exact Hmb | congruence].
  - rewrite last_cons_cons in Hl.
    assert (Hxt : x <> t).
    { intros ->. apply Hxl. apply (chain_last_next _ _ _ _ Hc Hl). }
    change ((x :: y :: l') ++ [b]) with (x :: ((y :: l') ++ [b])).
    split; [reflexivity|]. split; [exact Hx|].
    exists m. split; [rewrite lookup_insert_ne; [exact Hm | congruence]|].
    apply IH; auto.
Qed.

Lemma reaches_chain h p l x : chain h p l -> reaches h p x -> x ∈ l.
Proof.
  intros Hc Hr. revert l Hc.
  induction Hr as [p m Hp Hm | p m x Hp Hm Hr IH]; intros l Hc.
  - destruct l as [|y l]; [simpl in Hc; contradiction|].
    destruct Hc as (-> & _). left.
  - destruct l as [|y l]; [simpl in Hc; contradiction|].
    destruct Hc as (-> & _ & m' & Hm' & Hc).
    rewrite Hm in Hm'. injection Hm' as <-. right. eauto.
Qed.

Lemma chain_reaches h p l x : chain h p l -> x ∈ l -> reaches h p x.
Proof.
  revert p. induction l as [|y l IH]; intros p Hc Hx; [inversion Hx|].
  destruct Hc as (-> & Hy & m & Hm & Hc).
  destruct (decide (x = y)) as [->|Hne].
  - eapply reaches_here; eauto.
  - apply elem_of_cons in Hx as [->|Hx]; [contradiction|].
    eapply reaches_next; eauto.
Qed.

(** ** The search loop *)

Lemma alloc_scan_miss size l : forall fuel p st,
  chain (mappings st) p l -> (length l < fuel)%nat ->
  all_regions (mappings st) l (fun r => remaining r < size) ->
  alloc_scan fuel p size st = Done None st.
Proof.
  induction l as [|x l IH]; intros fuel p st Hc Hf Hall;
    (destruct fuel as [|fuel]; [simpl in Hf; lia|]); simpl in *.
  - subst p. reflexivity.
  - destruct Hc as (-> & Hx & m & Hm & Hc).
    destruct (Z.eqb_spec x NULL) as [E|_]; [contradiction|].
    step (load_region_step _ _ _ Hm).
    destruct (Hall x) as (m' & Hm' & Hrem); [left|].
    rewrite Hm in Hm'. injection Hm' as <-.
    destruct (Z.leb_spec size (remaining (map_hdr m))) as [Hle|_]; [lia|].
    apply IH; [exact Hc | lia |].
    intros y Hy. apply Hall. now right.
Qed.

Lemma alloc_scan_hit size l1 x l2 m : forall fuel p st,
  chain (mappings st) p (l1 ++ x :: l2) -> (length l1 < fuel)%nat ->
  all_regions (mappings st) l1 (fun r => remaining r < size) ->
  mappings st !! x = Some m -> size <= remaining (map_hdr m) ->
  alloc_scan fuel p size st =
  Done (Some (bytes (map_hdr m) + count (map_hdr m)))
       (with_mappings st
          (<[x := mkMapping (map_len m) (carve (map_hdr m) size)]> (mappings st))).
Proof.
  induction l1 as [|y l1 IH]; intros fuel p st Hc Hf Hall Hm Hfit;
    (destruct fuel as [|fuel]; [simpl in Hf; lia|]); simpl in *.
  - destruct Hc as (-> & Hx & _).
    destruct (Z.eqb_spec x NULL) as [E|_]; [contradiction|].
    step (load_region_step _ _ _ Hm).
    destruct (Z.leb_spec size (remaining (map_hdr m))) as [_|Hlt]; [|lia].
    step (store_region_step _ _ _ _ Hm).
    reflexivity.
  - destruct Hc as (-> & Hy & my & Hmy & Hc).
    destruct (Z.eqb_spec y NULL) as [E|_]; [contradiction|].
    step (load_region_step _ _ _ Hmy).
    destruct (Hall y) as (m' & Hm' & Hrem); [left|].
    rewrite Hmy in Hm'. injection Hm' as <-.
    destruct (Z.leb_spec size (remaining (map_hdr my))) as [Hle|_]; [lia|].
    apply IH; [exact Hc | lia | | exact Hm | exact Hfit].
    intros z Hz. apply Hall. now right.
Qed.

(** Either no region of a chain has room, or there is a first one. *)
Lemma first_fit_split h size l :
  (forall x, x ∈ l -> exists m, h !! x = Some m) ->
  all_regions h l (fun r => remaining r < size) \/
  exists l1 x l2 m,
    l = l1 ++ x :: l2 /\ all_regions h l1 (fun r => remaining r < size) /\
    h !! x = Some m /\ size <= remaining (map_hdr m).
Proof.
  induction l as [|y l IH]; intros Hdom.
  - left. intros x Hx. inversion Hx.
  - destruct (Hdom y) as (my & Hmy); [left|].
    destruct (Z.le_gt_cases size (remaining (map_hdr my))) as [Hfit|Hno].
    + right. exists [], y, l, my. repeat split; auto.
      intros x Hx. inversion Hx.
    + destruct IH as [Hall|(l1 & x & l2 & m & -> & Hall & Hm & Hfit)].
      * intros x Hx. apply Hdom. now right.
      * left. intros x Hx. apply elem_of_cons in Hx as [->|Hx]; eauto.
      * right. exists (y :: l1), x, l2, m. repeat split; auto.
        intros z Hz. apply elem_of_cons in Hz as [->|Hz]; eauto.
Qed.

(** ** Mapping a new region *)

Lemma new_region_step size base st :
  kernel (map_len <$> mappings st) size = Some base ->
  arena__new__region size st =
  Done base
    (mkHeap (arenas st)
            (<[base := mkMapping size (fresh_region base size)]> (mappings st))
            (zero_fill (mem st) base size)
            (Mmap size (Some base) :: oslog st)).
Proof.
  intros Hk. unfold arena__new__region, bind, mmap. rewrite Hk.
  unfold store_region. cbn [mappings]. rewrite lookup_insert_eq.
  unfold with_mappings. cbn. now rewrite insert_insert_eq.
Qed.

Lemma new_region_refused size st :
  kernel (map_len <$> mappings st) size = None ->
  arena__new__region size st = AssertFail.
Proof.
  intros Hk. unfold arena__new__region, bind, mmap. now rewrite Hk.
Qed.

Lemma new_region_done size base st st' :
  arena__new__region size st = Done base st' ->
  kernel (map_len <$> mappings st) size = Some base.
Proof.
  destruct (kernel (map_len <$> mappings st) size) as [b|] eqn:Hk.
  - rewrite (new_region_step _ _ _ Hk). congruence.
  - rewrite (new_region_refused _ _ Hk). discriminate.
Qed.

Lemma kernel_fresh st size base :
  kernel_ok -> kernel (map_len <$> mappings st) size = Some base ->
  base <> NULL /\ mappings st !! base = None.
Proof.
  intros Hok Hk. destruct (Hok _ _ _ Hk) as (Hb & Hnone & _).
  split; [exact Hb|]. rewrite lookup_fmap in Hnone.
  destruct (mappings st !! base); [discriminate | reflexivity].
Qed.

(** ** [arena_alloc] *)

Lemma assert_step b st : b = true -> assert b st = Done tt st.
Proof. intros ->. reflexivity. Qed.

Lemma not_null_test p : p <> NULL -> negb (p =? NULL) = true.
Proof. intros H. now destruct (Z.eqb_spec p NULL). Qed.

Lemma arena_wf_head st a l ar :
  arena_wf st a l -> arenas st !! a = Some ar -> l <> [] /\ head ar <> NULL.
Proof.
  intros (Ha & ar' & Har & Hc & Hl & _) E. rewrite Har in E. injection E as <-.
  destruct l as [|x l]; [discriminate|].
  destruct Hc as (-> & Hx & _). split; [discriminate | exact Hx].
Qed.

(** The in-chain path. *)
Lemma arena_alloc_hit st a ar l1 x l2 m size :
  a <> NULL -> arenas st !! a = Some ar ->
  chain (mappings st) (head ar) (l1 ++ x :: l2) ->
  all_regions (mappings st) l1 (fun r => remaining r < size) ->
  mappings st !! x = Some m -> size <= remaining (map_hdr m) ->
  arena_alloc a size st =
  Done (bytes (map_hdr m) + count (map_hdr m)) (carved st x m size).
Proof.
  intros Ha Har Hc Hall Hm Hfit. unfold arena_alloc.
  step (assert_step _ _ (not_null_test _ Ha)).
  step (load_arena_step _ _ _ Ha Har).
  assert (Hh : head ar <> NULL).
  { destruct l1; simpl in Hc; destruct Hc as (-> & Hx & _); exact Hx. }
  step (assert_step _ _ (not_null_test _ Hh)).
  unfold get at 1. unfold bind at 1.
  assert (Hf : (length l1 < chain_fuel st)%nat).
  { pose proof (chain_fuel_enough _ _ _ Hc) as H. rewrite length_app in H. lia. }
  step (alloc_scan_hit _ _ _ _ _ _ _ _ Hc Hf Hall Hm Hfit).
  reflexivity.
Qed.

(** The growth path. *)
Lemma arena_alloc_grow st a ar l t mt size base :
  kernel_ok ->
  a <> NULL -> arenas st !! a = Some ar ->
  chain (mappings st) (head ar) l -> last l = Some t -> tail ar = t ->
  mappings st !! t = Some mt ->
  all_regions (mappings st) l (fun r => remaining r < size) ->
  kernel (map_len <$> mappings st) (append_size size) = Some base ->
  arena_alloc a size st =
  Done (base + ARENA_REGION_SIZE) (grown st a ar mt base (append_size size)).
Proof.
  intros Hok Ha Har Hc Hl Ht Hmt Hall Hk. unfold arena_alloc.
  destruct (kernel_fresh _ _ _ Hok Hk) as (Hb & Hfresh).
  assert (Htb : t <> base) by congruence.
  step (assert_step _ _ (not_null_test _ Ha)).
  step (load_arena_step _ _ _ Ha Har).
  assert (Hh : head ar <> NULL).
  { destruct l; [discriminate|]. destruct Hc as (-> & Hx & _); exact Hx. }
  step (assert_step _ _ (not_null_test _ Hh)).
  unfold get at 1. unfold bind at 1.
  step (alloc_scan_miss _ _ _ _ _ Hc (chain_fuel_enough _ _ _ Hc) Hall).
  unfold arena__append__region.
  unfold bind at 1. unfold bind at 1.
  rewrite (new_region_step _ _ _ Hk).
  unfold bind at 1. rewrite (load_arena_step a ar) by (auto; exact Har).
  unfold bind at 1. unfold load_region, store_region. cbn [mappings].
  rewrite Ht. rewrite lookup_insert_ne by congruence. rewrite Hmt.
  unfold bind at 1. cbn [mappings with_mappings arenas mem oslog].
  rewrite lookup_insert_ne by congruence. rewrite Hmt.
  unfold bind at 1. rewrite (load_arena_step a ar) by (auto; exact Har).
  rewrite (store_arena_step a ar) by (auto; exact Har).
  cbn [mappings with_mappings arenas mem oslog].
  unfold bind at 1.
  erewrite load_arena_step; [| exact Ha | cbn [arenas]; apply lookup_insert_eq].
  unfold bind at 1. cbn [mappings tail].
  rewrite lookup_insert_ne by congruence. rewrite lookup_insert_eq.
  unfold ret, grown. cbn. rewrite Ht. f_equal. lia.
Qed.

(** ** Arithmetic on [size_t] *)

Lemma wrap_range z : 0 <= wrap z < 2 ^ SIZE_BITS.
Proof. unfold wrap. apply Z.mod_pos_bound. reflexivity. Qed.

Lemma wrap_small z : 0 <= z < 2 ^ SIZE_BITS -> wrap z = z.
Proof. intros H. unfold wrap. now apply Z.mod_small. Qed.

Lemma fresh_region_inv p size :
  region_inv (fresh_region p size) /\ region_typed (fresh_region p size).
Proof.
  unfold region_inv, region_typed, fresh_region. simpl.
  pose proof (wrap_range (size - ARENA_REGION_SIZE)). lia.
Qed.

Lemma carve_inv r size :
  region_inv r -> region_typed r -> 0 <= size <= remaining r ->
  count (carve r size) = count r + size /\
  remaining (carve r size) = remaining r - size /\
  region_inv (carve r size) /\ region_typed (carve r size).
Proof.
  unfold region_inv, region_typed, carve. simpl. intros (Hc & Hr) Ht Hs.
  rewrite !wrap_small by lia. lia.
Qed.

Lemma cleared_inv r :
  region_typed r -> region_inv (cleared r) /\ region_typed (cleared r).
Proof. unfold region_inv, region_typed, cleared. simpl. lia. Qed.

Lemma set_next_inv r p :
  region_inv r /\ region_typed r ->
  region_inv (set_next r p) /\ region_typed (set_next r p).
Proof. unfold region_inv, region_typed, set_next. simpl. auto. Qed.

(** ** Initialised arenas stay initialised *)

Lemma initialised_wf st a ar0 base msz :
  a <> NULL -> arenas st !! a = Some ar0 -> base <> NULL ->
  arena_wf (initialised st a base msz) a [base].
Proof.
  intros Ha Har Hb. split; [exact Ha|].
  exists {| head := base; tail := base |}. unfold initialised. cbn.
  split; [apply lookup_insert_eq|].
  split.
  { split; [reflexivity|]. split; [exact Hb|].
    eexists. split; [apply lookup_insert_eq | reflexivity]. }
  split; [reflexivity|].
  intros x Hx. apply list_elem_of_singleton in Hx as ->.
  eexists. split; [apply lookup_insert_eq|]. apply fresh_region_inv.
Qed.

Lemma carved_wf st a l x m size :
  arena_wf st a l -> x ∈ l -> mappings st !! x = Some m ->
  0 <= size <= remaining (map_hdr m) ->
  arena_wf (carved st x m size) a l.
Proof.
  intros (Ha & ar & Har & Hc & Hl & Hall) Hx Hm Hs.
  split; [exact Ha|]. exists ar. unfold carved, with_mappings. cbn.
  split; [exact Har|]. split.
  { eapply chain_ext; [|exact Hc]. intros y my Hy Hmy.
    destruct (decide (y = x)) as [->|Hne].
    - rewrite lookup_insert_eq. eexists. split; [reflexivity|].
      rewrite Hm in Hmy. now injection Hmy as <-.
    - rewrite lookup_insert_ne by congruence. eauto. }
  split; [exact Hl|].
  intros y Hy. destruct (decide (y = x)) as [->|Hne].
  - rewrite lookup_insert_eq. eexists. split; [reflexivity|]. simpl.
    destruct (Hall x Hx) as (m' & Hm' & Hinv & Hty).
    rewrite Hm in Hm'. injection Hm' as <-.
    destruct (carve_inv _ _ Hinv Hty Hs) as (_ & _ & H1 & H2). auto.
  - rewrite lookup_insert_ne by congruence. auto.
Qed.

Lemma grown_wf st a ar l mt base msz :
  arena_wf st a l -> arenas st !! a = Some ar ->
  mappings st !! tail ar = Some mt ->
  base <> NULL -> mappings st !! base = None ->
  arena_wf (grown st a ar mt base msz) a (l ++ [base]).
Proof.
  intros (Ha & ar' & Har' & Hc & Hl & Hall) Har Hmt Hb Hfresh.
  rewrite Har in Har'. injection Har' as <-.
  assert (Hbl : base ∉ l).
  { intros Hin. destruct (Hall _ Hin) as (m & Hm & _). congruence. }
  assert (Htb : tail ar <> base) by congruence.
  split; [exact Ha|]. exists {| head := head ar; tail := base |}.
  unfold grown. cbn.
  split; [apply lookup_insert_eq|]. split.
  { eapply chain_snoc with (mb := mkMapping msz (fresh_region base msz)); eauto.
    - eapply chain_ext; [|exact Hc]. intros y my Hy Hmy.
      rewrite lookup_insert_ne by (intros ->; contradiction). eauto.
    - rewrite lookup_insert_ne by congruence. exact Hmt.
    - apply lookup_insert_eq. }
  split; [apply last_snoc|].
  intros y Hy. apply elem_of_app in Hy as [Hy|Hy].
  - destruct (Hall _ Hy) as (m & Hm & Hinv).
    destruct (decide (y = tail ar)) as [->|Hne].
    + rewrite lookup_insert_eq. eexists. split; [reflexivity|]. simpl.
      rewrite Hmt in Hm. injection Hm as <-. now apply set_next_inv.
    + rewrite lookup_insert_ne by congruence.
      rewrite lookup_insert_ne by (intros ->; contradiction). eauto.
  - apply list_elem_of_singleton in Hy as ->.
    rewrite lookup_insert_ne by congruence. rewrite lookup_insert_eq.
    eexists. split; [reflexivity|]. apply fresh_region_inv.
Qed.

Lemma arena_init_step st a ar0 size base :
  a <> NULL -> arenas st !! a = Some ar0 ->
  kernel (map_len <$> mappings st) (arena__align__size size) = Some base ->
  arena_init a size st = Done tt (initialised st a base (arena__align__size size)).
Proof.
  intros Ha Har Hk. unfold arena_init.
  step (new_region_step _ _ _ Hk).
  unfold bind at 1. rewrite (load_arena_step a ar0) by (auto; exact Har).
  unfold bind at 1. rewrite (store_arena_step a ar0) by (auto; exact Har).
  unfold bind at 1. cbn [arenas mappings mem oslog].
  erewrite load_arena_step; [| exact Ha | cbn [arenas]; apply lookup_insert_eq].
  erewrite store_arena_step; [| exact Ha | cbn [arenas]; apply lookup_insert_eq].
  cbn. unfold initialised. now rewrite insert_insert_eq.
Qed.

Lemma arena_init_done st a size st' :
  arena_init a size st = Done tt st' ->
  exists ar0 base,
    a <> NULL /\ arenas st !! a = Some ar0 /\
    kernel (map_len <$> mappings st) (arena__align__size size) = Some base /\
    st' = initialised st a base (arena__align__size size).
Proof.
  intros H. pose proof H as H0. unfold arena_init in H.
  apply bind_done in H as (base & st1 & Hnew & H).
  apply new_region_done in Hnew as Hk.
  rewrite (new_region_step _ _ _ Hk) in Hnew. injection Hnew as <-.
  apply bind_done in H as (ar0 & st2 & Hload & _).
  apply load_arena_done in Hload as (Ha & Har & _). cbn in Har.
  exists ar0, base. repeat split; auto.
  rewrite (arena_init_step _ _ _ _ _ Ha Har Hk) in H0. congruence.
Qed.



Lemma arena_alloc_dead st a size : arena_dead st a -> arena_alloc a size st = AssertFail.
Proof.
  intros (Ha & Har). unfold arena_alloc.
  step (assert_step _ _ (not_null_test _ Ha)).
  step (load_arena_step _ _ _ Ha Har).
  reflexivity.
Qed.

(** ** [arena_realloc] *)



Lemma arena_realloc_shrink st a old_ptr old_size new_size :
  a <> NULL -> new_size < old_size ->
  arena_realloc a old_ptr old_size new_size st = Done old_ptr st.
Proof.
  intros Ha Hlt. unfold arena_realloc.
  step (assert_step _ _ (not_null_test _ Ha)).
  destruct (Z.ltb_spec new_size old_size); [reflexivity | lia].
Qed.


(** A growing [arena_realloc] that returns is an [arena_alloc] that
    returned, followed by a copy loop that returned. *)
Lemma arena_realloc_done st a old_ptr old_size new_size p st2 :
  old_size <= new_size ->
  arena_realloc a old_ptr old_size new_size st = Done p st2 ->
  exists st1,
    arena_alloc a new_size st = Done p st1 /\
    copy_bytes (Z.to_nat old_size) 0 p old_ptr st1 = Done tt st2.
Proof.
  intros Hle H. unfold arena_realloc in H.
  apply bind_done in H as ([] & s0 & Hassert & H).
  unfold assert in Hassert. destruct (negb (a =? NULL)); [|discriminate].
  injection Hassert as <-.
  destruct (Z.ltb_spec new_size old_size); [lia|].
  apply bind_done in H as (p' & st1 & Halloc & H).
  apply bind_done in H as ([] & s2 & Hcopy & Hret).
  injection Hret as <- <-. eauto.
Qed.

Lemma arena_realloc_fails st a old_ptr old_size new_size :
  old_size <= new_size ->
  arena_alloc a new_size st = AssertFail ->
  arena_realloc a old_ptr old_size new_size st = AssertFail.
Proof.
  intros Hle Halloc. unfold arena_realloc, bind at 1, assert.
  destruct (negb (a =? NULL)); [|reflexivity].
  destruct (Z.ltb_spec new_size old_size); [lia|].
  unfold bind. now rewrite Halloc.
Qed.

(** ** [arena_reset] *)

Lemma lookup_reset_all l : forall h y,
  reset_all l h !! y = if decide (y ∈ l) then clear_mapping <$> h !! y else h !! y.
Proof.
  induction l as [|x l IH]; intros h y; cbn [reset_all].
  - destruct (decide (y ∈ [])) as [H|_]; [inversion H | reflexivity].
  - rewrite IH, lookup_alter.
    destruct (decide (y ∈ l)) as [Hl|Hl]; case_decide as Hxy; subst.
    + rewrite decide_True by (apply elem_of_cons; now right).
      destruct (h !! y); reflexivity.
    + rewrite decide_True by (apply elem_of_cons; now right). reflexivity.
    + rewrite decide_True by (apply elem_of_cons; now left). reflexivity.
    + rewrite decide_False; [reflexivity|].
      intros H. apply elem_of_cons in H as [?|?]; [congruence | contradiction].
Qed.

Lemma alter_present (f : Mapping -> Mapping) (h : gmap Z Mapping) x m :
  h !! x = Some m -> alter f x h = <[x := f m]> h.
Proof.
  intros Hm. apply map_eq. intros y. rewrite lookup_alter, lookup_insert.
  destruct (decide (x = y)) as [->|_]; [now rewrite Hm | reflexivity].
Qed.

Lemma reset_loop_step l : forall fuel p st,
  chain (mappings st) p l -> (length l < fuel)%nat ->
  reset_loop fuel p st = Done tt (with_mappings st (reset_all l (mappings st))).
Proof.
  induction l as [|x l IH]; intros fuel p st Hc Hf;
    (destruct fuel as [|fuel]; [simpl in Hf; lia|]); simpl in *.
  - subst p. now destruct st.
  - pose proof (chain_NoDup _ _ (x :: l) Hc) as Hnd.
    apply NoDup_cons in Hnd as [Hxl _].
    destruct Hc as (-> & Hx & m & Hm & Hc).
    destruct (Z.eqb_spec x NULL) as [E|_]; [contradiction|].
    step (load_region_step _ _ _ Hm).
    step (store_region_step _ _ _ _ Hm).
    rewrite IH with (p := next (map_hdr m)); [| | simpl in Hf; lia].
    + unfold with_mappings. cbn. now rewrite (alter_present _ _ _ _ Hm).
    + cbn. eapply chain_ext; [|exact Hc]. intros y my Hy Hmy.
      rewrite lookup_insert_ne by (intros ->; contradiction). eauto.
Qed.

Lemma arena_reset_step st a ar l :
  a <> NULL -> arenas st !! a = Some ar -> chain (mappings st) (head ar) l ->
  arena_reset a st = Done tt (with_mappings st (reset_all l (mappings st))).
Proof.
  intros Ha Har Hc. unfold arena_reset.
  step (assert_step _ _ (not_null_test _ Ha)).
  step (load_arena_step _ _ _ Ha Har).
  unfold get at 1. unfold bind at 1.
  apply reset_loop_step; [exact Hc | exact (chain_fuel_enough _ _ _ Hc)].
Qed.

Lemma reset_wf st a l :
  arena_wf st a l -> arena_wf (with_mappings st (reset_all l (mappings st))) a l.
Proof.
  intros (Ha & ar & Har & Hc & Hl & Hall).
  split; [exact Ha|]. exists ar. unfold with_mappings. cbn.
  split; [exact Har|]. split.
  { eapply chain_ext; [|exact Hc]. intros y my Hy Hmy.
    rewrite lookup_reset_all. rewrite decide_True by exact Hy.
    rewrite Hmy. eexists. split; reflexivity. }
  split; [exact Hl|].
  intros y Hy. destruct (Hall y Hy) as (m & Hm & _ & Hty).
  rewrite lookup_reset_all. rewrite decide_True by exact Hy.
  rewrite Hm. eexists. split; [reflexivity|]. simpl. now apply cleared_inv.
Qed.

(** ** [arena_destroy] *)

Lemma store_arena_done a ar' st st' :
  store_arena a ar' st = Done tt st' ->
  a <> NULL /\
  st' = mkHeap (<[a := ar']> (arenas st)) (mappings st) (mem st) (oslog st).
Proof.
  unfold store_arena. destruct (Z.eqb_spec a NULL) as [E|N]; [discriminate|].
  destruct (arenas st !! a); [|discriminate].
  intros H. injection H as <-. auto.
Qed.

Lemma arena_destroy_done st a st' :
  arena_destroy a st = Done tt st' -> arena_dead st' a.
Proof.
  unfold arena_destroy. intros H.
  apply bind_done in H as (ar & s1 & _ & H).
  apply bind_done in H as (s & s2 & _ & H).
  apply bind_done in H as ([] & s3 & _ & H).
  apply bind_done in H as (a1 & s4 & _ & H).
  apply bind_done in H as ([] & s5 & Hst1 & H).
  apply bind_done in H as (a2 & s6 & Hld & Hst2).
  apply store_arena_done in Hst1 as (Ha & ->).
  apply load_arena_done in Hld as (_ & Hl & ->). cbn in Hl.
  rewrite lookup_insert_eq in Hl. injection Hl as <-.
  apply store_arena_done in Hst2 as (_ & ->).
  split; [exact Ha|]. cbn. apply lookup_insert_eq.
Qed.

Lemma heap_eta st : mkHeap (arenas st) (mappings st) (mem st) (oslog st) = st.
Proof. now destruct st. Qed.

Lemma arena_destroy_dead st a : arena_dead st a -> arena_destroy a st = Done tt st.
Proof.
  intros (Ha & Har). unfold arena_destroy.
  step (load_arena_step _ _ _ Ha Har).
  unfold get at 1. unfold bind at 1. unfold chain_fuel. cbn [destroy_loop head].
  change (NULL =? NULL) with true. cbn iota. unfold ret at 1. unfold bind at 1.
  step (load_arena_step _ _ _ Ha Har).
  step (store_arena_step _ _ _ _ Ha Har).
  cbn [tail]. rewrite (insert_id _ _ _ Har), heap_eta.
  step (load_arena_step _ _ _ Ha Har).
  rewrite (store_arena_step _ _ _ _ Ha Har).
  cbn [head]. now rewrite (insert_id _ _ _ Har), heap_eta.
Qed.

Lemma arena_reset_dead st a ar :
  a <> NULL -> arenas st !! a = Some ar -> head ar = NULL ->
  arena_reset a st = Done tt st.
Proof.
  intros Ha Har Hh.
  rewrite (arena_reset_step st a ar []); [| exact Ha | exact Har | exact Hh].
  unfold with_mappings. cbn. now rewrite heap_eta.
Qed.

(** ** Sequences of calls *)

(** In every state the invariant allows, the regions on the chain from
    [head] have consistent bookkeeping. *)
Lemma arena_inv_regions st a ar x :
  arena_inv st a -> arenas st !! a = Some ar ->
  reaches (mappings st) (head ar) x ->
  exists m, mappings st !! x = Some m /\ region_inv (map_hdr m).
Proof.
  intros [(l & Ha & ar' & Har' & Hc & Hl & Hall)|(Ha & Har')] Har Hr;
    rewrite Har in Har'; injection Har' as ->.
  - destruct (Hall x (reaches_chain _ _ _ _ Hc Hr)) as (m & Hm & Hinv & _). eauto.
  - cbn in Hr. inversion Hr; subst; contradiction.
Qed.

(** ** The checkers are sound *)

Lemma chainb_sound h l : forall p, chainb h p l = true -> chain h p l.
Proof.
  induction l as [|x l IH]; intros p H; simpl in *.
  - now apply Z.eqb_eq.
  - apply andb_prop in H as [H Hm]. apply andb_prop in H as [Hp Hx].
    apply Z.eqb_eq in Hp. apply negb_true_iff, Z.eqb_neq in Hx.
    destruct (h !! x) as [m|]; [|discriminate].
    split; [exact Hp|]. split; [exact Hx|]. exists m. auto.
Qed.

Lemma all_regionsb_sound h l f (P : Region -> Prop) :
  (forall r, f r = true -> P r) ->
  all_regionsb h l f = true -> all_regions h l P.
Proof.
  intros HP H x Hx. unfold all_regionsb in H.
  rewrite forallb_forall in H. apply list_elem_of_In in Hx.
  specialize (H x Hx). destruct (h !! x) as [m|]; [|discriminate]. eauto.
Qed.

Lemma region_okb_sound r : region_okb r = true -> region_inv r /\ region_typed r.
Proof.
  unfold region_okb, region_inv, region_typed. intros H.
  repeat (apply andb_prop in H as [H ?]).
  repeat match goal with
         | H : (_ <=? _) = true |- _ => apply Z.leb_le in H
         | H : (_ <? _) = true |- _ => apply Z.ltb_lt in H
         | H : (_ =? _) = true |- _ => apply Z.eqb_eq in H
         end.
  lia.
Qed.

Lemma arena_wfb_sound st a l : arena_wfb st a l = true -> arena_wf st a l.
Proof.
  unfold arena_wfb. intros H. apply andb_prop in H as [Ha H].
  apply negb_true_iff, Z.eqb_neq in Ha.
  destruct (arenas st !! a) as [ar|] eqn:Har; [|discriminate].
  apply andb_prop in H as [H Hall]. apply andb_prop in H as [Hc Hl].
  split; [exact Ha|]. exists ar. split; [exact Har|].
  split; [now apply chainb_sound|]. split.
  - destruct (last l) as [t|]; [|discriminate]. apply Z.eqb_eq in Hl. now subst.
  - eapply all_regionsb_sound; [|exact Hall]. apply region_okb_sound.
Qed.

Lemma no_room_sound h l size :
  all_regionsb h l (fun r => remaining r <? size) = true ->
  all_regions h l (fun r => remaining r < size).
Proof.
  apply all_regionsb_sound. intros r. apply Z.ltb_lt.
Qed.

(** ** The size of a mapping *)

Lemma land_wrap a x : 0 <= a < 2 ^ SIZE_BITS -> Z.land a (wrap x) = Z.land a x.
Proof.
  intros Ha. unfold wrap, SIZE_BITS in *.
  rewrite <- Z.land_ones by lia.
  rewrite (Z.land_comm x), Z.land_assoc, Z.land_ones by lia.
  now rewrite Z.mod_small.
Qed.

(** With pages of [2^k] bytes, and without overflow, the size is the
    request plus the header, rounded up to a whole number of pages. *)
Lemma arena__align__size_rounds k size :
  page_size = 2 ^ k -> 0 <= k -> 0 <= size ->
  size + ARENA_REGION_SIZE + 2 ^ k <= 2 ^ SIZE_BITS ->
  arena__align__size size =
    2 ^ k * ((size + ARENA_REGION_SIZE + 2 ^ k - 1) / 2 ^ k).
Proof.
  intros HP Hk Hs Hmax. unfold arena__align__size. rewrite HP.
  assert (Hpos : 0 < 2 ^ k) by (apply Z.pow_pos_nonneg; lia).
  unfold ARENA_REGION_SIZE, SIZE_BITS in *.
  rewrite (wrap_small (2 ^ k)) by (unfold SIZE_BITS; lia).
  rewrite (wrap_small (40 + size)) by (unfold SIZE_BITS; lia).
  rewrite (wrap_small (40 + size + 2 ^ k - 1)) by (unfold SIZE_BITS; lia).
  rewrite (wrap_small (2 ^ k - 1)) by (unfold SIZE_BITS; lia).
  rewrite land_wrap by (unfold SIZE_BITS; lia).
  replace (2 ^ k - 1) with (Z.ones k) by (rewrite Z.ones_equiv; lia).
  rewrite <- Z.ldiff_land, Z.ldiff_ones_r by lia.
  rewrite Z.shiftl_mul_pow2, Z.shiftr_div_pow2 by lia.
  replace (size + 40 + 2 ^ k - 1) with (40 + size + 2 ^ k - 1) by lia. lia.
Qed.

Lemma arena__align__size_bounds k size :
  page_size = 2 ^ k -> 0 <= k -> 0 <= size ->
  size + ARENA_REGION_SIZE + 2 ^ k <= 2 ^ SIZE_BITS ->
  size + ARENA_REGION_SIZE <= arena__align__size size
    < size + ARENA_REGION_SIZE + 2 ^ k /\
  arena__align__size size mod 2 ^ k = 0.
Proof.
  intros HP Hk Hs Hmax.
  rewrite (arena__align__size_rounds k size HP Hk Hs Hmax).
  assert (Hpos : 0 < 2 ^ k) by (apply Z.pow_pos_nonneg; lia).
  pose proof (Z.div_mod (size + ARENA_REGION_SIZE + 2 ^ k - 1) (2 ^ k)) as Hdm.
  pose proof (Z.mod_pos_bound (size + ARENA_REGION_SIZE + 2 ^ k - 1) (2 ^ k) Hpos) as Hb.
  split; [lia|].
  rewrite Z.mul_comm. now apply Z.mod_mul; lia.
Qed.

Lemma default_capacity_pow2 k :
  page_size = 2 ^ k -> 0 <= k -> 2 * 2 ^ k < 2 ^ SIZE_BITS ->
  wrap (ARENA_REGION_DEFAULT_CAPACITY page_size) = 2 * 2 ^ k.
Proof.
  intros HP Hk Hmax. unfold ARENA_REGION_DEFAULT_CAPACITY, ARENA_PAGE_SIZE.
  rewrite HP. assert (0 < 2 ^ k) by (apply Z.pow_pos_nonneg; lia).
  rewrite wrap_small; lia.
Qed.

(** The region [arena__append__region] maps holds the request, except
    for requests within a header's length below two pages. *)
Lemma appended_region_holds k size :
  page_size = 2 ^ k -> ARENA_REGION_SIZE <= 2 ^ k -> 0 <= k -> 0 <= size ->
  2 * 2 ^ k < 2 ^ SIZE_BITS ->
  size + ARENA_REGION_SIZE + 2 ^ k <= 2 ^ SIZE_BITS ->
  size <= 2 * 2 ^ k - ARENA_REGION_SIZE \/ 2 * 2 ^ k <= size ->
  size <= wrap (append_size size - ARENA_REGION_SIZE).
Proof.
  intros HP Hhdr Hk Hs Hmax2 Hmax Hout.
  destruct (arena__align__size_bounds k size HP Hk Hs Hmax) as (Hal & _).
  unfold append_size. rewrite (default_capacity_pow2 k HP Hk Hmax2).
  unfold ARENA_REGION_SIZE, SIZE_BITS in *.
  destruct (Z.ltb_spec size (2 * 2 ^ k)) as [Hlt|Hge].
  - rewrite wrap_small by (unfold SIZE_BITS; lia). lia.
  - rewrite wrap_small by (unfold SIZE_BITS; lia). lia.
Qed.

(** Within that window the region is too small for the request. *)
Lemma appended_region_short k size :
  page_size = 2 ^ k -> ARENA_REGION_SIZE <= 2 ^ k -> 0 <= k ->
  2 * 2 ^ k < 2 ^ SIZE_BITS ->
  2 * 2 ^ k - ARENA_REGION_SIZE < size < 2 * 2 ^ k ->
  wrap (append_size size - ARENA_REGION_SIZE) = 2 * 2 ^ k - ARENA_REGION_SIZE /\
  wrap (append_size size - ARENA_REGION_SIZE) < size.
Proof.
  intros HP Hhdr Hk Hmax Hwin.
  unfold append_size. rewrite (default_capacity_pow2 k HP Hk Hmax).
  unfold ARENA_REGION_SIZE, SIZE_BITS in *.
  destruct (Z.ltb_spec size (2 * 2 ^ k)) as [Hlt|Hge]; [|lia].
  rewrite wrap_small by (unfold SIZE_BITS; lia). lia.
Qed.

(** * The claims *)

(** C4: when some region of an initialised arena's chain has
    [remaining >= size], [arena_alloc] picks the first such region in
    chain order, returns its [bytes + count], adds [size] to its [count]
    and takes [size] from its [remaining]; every other region, and the
    rest of the state, is unchanged. *)
Theorem arena_alloc_first_fit st a l1 x l2 m size :
  arena_wf st a (l1 ++ x :: l2) ->
  all_regions (mappings st) l1 (fun r => remaining r < size) ->
  mappings st !! x = Some m -> 0 <= size <= remaining (map_hdr m) ->
  exists st' m',
    arena_alloc a size st = Done (bytes (map_hdr m) + count (map_hdr m)) st' /\
    mappings st' !! x = Some m' /\
    count (map_hdr m') = count (map_hdr m) + size /\
    remaining (map_hdr m') = remaining (map_hdr m) - size /\
    capacity (map_hdr m') = capacity (map_hdr m) /\
    next (map_hdr m') = next (map_hdr m) /\
    bytes (map_hdr m') = bytes (map_hdr m) /\
    map_len m' = map_len m /\
    (forall y, y <> x -> mappings st' !! y = mappings st !! y) /\
    arenas st' = arenas st /\ mem st' = mem st /\ oslog st' = oslog st.
Proof.
  intros Hwf Hno Hm Hs. pose proof Hwf as (Ha & ar & Har & Hc & Hl & Hall).
  exists (carved st x m size), (mkMapping (map_len m) (carve (map_hdr m) size)).
  split; [eapply arena_alloc_hit; eauto; lia|].
  unfold carved, with_mappings. cbn [mappings arenas mem oslog map_hdr map_len].
  split; [apply lookup_insert_eq|].
  destruct (Hall x) as (m0 & Hm0 & Hinv & Hty); [apply elem_of_app; right; left|].
  rewrite Hm in Hm0. injection Hm0 as <-.
  destruct (carve_inv _ _ Hinv Hty Hs) as (Hc1 & Hc2 & _).
  repeat split; auto.
  intros y Hy. now rewrite lookup_insert_ne by congruence.
Qed.

(** C10: when no region of an initialised arena's chain has
    [remaining >= size] and the kernel grants the mapping, [arena_alloc]
    returns [bytes + count] of the newly appended tail region, and after
    the call that region still has [count = 0] and
    [remaining = capacity]. *)
Theorem arena_alloc_growth_leaves_count st a l size base :
  kernel_ok -> arena_wf st a l ->
  all_regions (mappings st) l (fun r => remaining r < size) ->
  kernel (map_len <$> mappings st) (append_size size) = Some base ->
  exists st' ar' r,
    arena_alloc a size st = Done (bytes r + count r) st' /\
    mappings st !! base = None /\
    arenas st' !! a = Some ar' /\ tail ar' = base /\
    mappings st' !! tail ar' = Some (mkMapping (append_size size) r) /\
    count r = 0 /\ remaining r = capacity r /\
    capacity r = wrap (append_size size - ARENA_REGION_SIZE) /\
    arena_wf st' a (l ++ [base]).
Proof.
  intros Hok Hwf Hno Hk. pose proof Hwf as (Ha & ar & Har & Hc & Hl & Hall).
  destruct (chain_last_next _ _ _ _ Hc Hl) as (Hin & mt & Hmt & _).
  destruct (kernel_fresh _ _ _ Hok Hk) as (Hb & Hfresh).
  exists (grown st a ar mt base (append_size size)),
         {| head := head ar; tail := base |},
         (fresh_region base (append_size size)).
  split.
  { rewrite (arena_alloc_grow st a ar l (tail ar) mt size base); auto.
    cbn. f_equal. lia. }
  split; [exact Hfresh|].
  unfold grown. cbn [arenas mappings tail].
  split; [apply lookup_insert_eq|]. split; [reflexivity|].
  split.
  { rewrite lookup_insert_ne by congruence. apply lookup_insert_eq. }
  repeat split; try reflexivity.
  - exact (proj1 (grown_wf _ _ _ _ _ _ (append_size size) Hwf Har Hmt Hb Hfresh)).
  - exact (proj2 (grown_wf _ _ _ _ _ _ (append_size size) Hwf Har Hmt Hb Hfresh)).
Qed.

Lemma total_nonneg sizes : Forall (fun n => 0 <= n) sizes -> 0 <= total sizes.
Proof.
  induction 1 as [|n sizes Hn _ IH]; simpl; [reflexivity | lia].
Qed.

(** Requests that together fit in the first region are all served from it. *)
Lemma allocs_from_head a b l2 sizes : forall st m,
  arena_wf st a (b :: l2) -> mappings st !! b = Some m ->
  Forall (fun n => 0 <= n) sizes -> total sizes <= remaining (map_hdr m) ->
  exists ps st',
    run a (map Alloc sizes) st = Done ps st' /\
    oslog st' = oslog st /\ length ps = length sizes.
Proof.
  induction sizes as [|s sizes IH]; intros st m Hwf Hm Hnn Htot.
  - exists [], st. repeat split.
  - apply Forall_cons in Hnn as [Hs Hnn]. simpl in Htot.
    pose proof (total_nonneg _ Hnn) as Hrest.
    pose proof Hwf as (Ha & ar & Har & Hc & Hl & Hall).
    destruct (Hall b) as (m0 & Hm0 & Hinv & Hty); [left|].
    rewrite Hm in Hm0. injection Hm0 as <-.
    assert (Hfit : 0 <= s <= remaining (map_hdr m)) by lia.
    destruct (carve_inv _ _ Hinv Hty Hfit) as (_ & Hrem & _).
    destruct (IH (carved st b m s) (mkMapping (map_len m) (carve (map_hdr m) s)))
      as (ps & st' & Hrun & Hlog & Hlen); auto.
    + eapply carved_wf; eauto. left.
    + unfold carved, with_mappings. cbn. apply lookup_insert_eq.
    + cbn [map_hdr]. lia.
    + exists (bytes (map_hdr m) + count (map_hdr m) :: ps), st'.
      split; [|split; [exact Hlog | simpl; now rewrite Hlen]].
      cbn [map run do_call].
      assert (Halloc : arena_alloc a s st =
                Done (bytes (map_hdr m) + count (map_hdr m)) (carved st b m s)).
      { apply (arena_alloc_hit st a ar [] b l2 m s); auto.
        - intros y Hy. inversion Hy.
        - lia. }
      step Halloc.
      now step Hrun.
Qed.

(** C9: after [arena_init], a sequence of [arena_alloc] calls whose sizes
    add up to at most the capacity of the initial region all return, and
    none of them calls the operating system: the log still holds the one
    [mmap] of [arena_init]. *)
Theorem allocs_within_capacity_map_nothing a size st0 st1 ar m sizes :
  kernel_ok ->
  arena_init a size st0 = Done tt st1 ->
  arenas st1 !! a = Some ar -> mappings st1 !! head ar = Some m ->
  Forall (fun n => 0 <= n) sizes -> total sizes <= capacity (map_hdr m) ->
  exists ps st2,
    run a (map Alloc sizes) st1 = Done ps st2 /\
    length ps = length sizes /\
    oslog st2 = oslog st1 /\
    mmap_calls st2 = S (mmap_calls st0).
Proof.
  intros Hok Hinit Har Hm Hnn Htot.
  apply arena_init_done in Hinit as (ar0 & base & Ha & Har0 & Hk & ->).
  destruct (kernel_fresh _ _ _ Hok Hk) as (Hb & _).
  pose proof (initialised_wf st0 a ar0 base (arena__align__size size) Ha Har0 Hb) as Hwf.
  unfold initialised in Har, Hm. cbn in Har, Hm.
  rewrite lookup_insert_eq in Har. injection Har as <-. cbn in Hm.
  rewrite lookup_insert_eq in Hm. injection Hm as <-. cbn in Htot.
  destruct (allocs_from_head a base [] sizes _ _ Hwf
              (lookup_insert_eq _ _ _) Hnn Htot) as (ps & st2 & Hrun & Hlog & Hlen).
  exists ps, st2. repeat split; auto.
  unfold mmap_calls. rewrite Hlog. unfold initialised. cbn [oslog].
  now rewrite filter_cons_True.
Qed.

(** C6 (amended): when [arena_destroy] returns, [head] and [tail] are
    both [NULL]; a second [arena_destroy] on that arena then also
    returns, having changed nothing and called nothing. *)
Theorem arena_destroy_twice st a st' :
  arena_destroy a st = Done tt st' ->
  arenas st' !! a = Some {| head := NULL; tail := NULL |} /\
  arena_destroy a st' = Done tt st'.
Proof.
  intros H. apply arena_destroy_done in H.
  split; [exact (proj2 H) | now apply arena_destroy_dead].
Qed.


(** * Further properties of the code *)

(** ** [arena__align__size] *)

(** Masking with [~(page_size - 1)] clears the low [k] bits. *)
Lemma land_page_mask k a :
  0 <= k -> 2 ^ k < 2 ^ SIZE_BITS -> 0 <= a < 2 ^ SIZE_BITS ->
  Z.land a (wrap (Z.lnot (wrap (2 ^ k - 1)))) = 2 ^ k * (a / 2 ^ k).
Proof.
  intros Hk Hp Ha.
  assert (Hpos : 0 < 2 ^ k) by (apply Z.pow_pos_nonneg; lia).
  rewrite (wrap_small (2 ^ k - 1)) by lia.
  rewrite land_wrap by exact Ha.
  replace (2 ^ k - 1) with (Z.ones k) by (rewrite Z.ones_equiv; lia).
  rewrite <- Z.ldiff_land, Z.ldiff_ones_r by lia.
  rewrite Z.shiftl_mul_pow2, Z.shiftr_div_pow2 by lia. lia.
Qed.

(** X1: with pages of [2^k] bytes and a request that does not overflow
    [size_t], [arena__align__size] returns a whole number of pages that
    holds the header and the request and wastes less than one page. *)
Theorem align_size_rounds_up k size :
  page_size = 2 ^ k -> 0 <= k -> 0 <= size ->
  size + ARENA_REGION_SIZE + 2 ^ k <= 2 ^ SIZE_BITS ->
  arena__align__size size mod 2 ^ k = 0 /\
  size + ARENA_REGION_SIZE <= arena__align__size size /\
  arena__align__size size < size + ARENA_REGION_SIZE + 2 ^ k.
Proof.
  intros HP Hk Hs Hmax.
  assert (Hpos : 0 < 2 ^ k) by (apply Z.pow_pos_nonneg; lia).
  unfold arena__align__size. rewrite HP.
  unfold ARENA_REGION_SIZE, SIZE_BITS in *.
  rewrite (wrap_small (2 ^ k)) by (unfold SIZE_BITS; lia).
  rewrite (wrap_small (40 + size)) by (unfold SIZE_BITS; lia).
  rewrite (wrap_small (40 + size + 2 ^ k - 1)) by (unfold SIZE_BITS; lia).
  rewrite land_page_mask by (unfold SIZE_BITS; lia).
  pose proof (Z.div_mod (40 + size + 2 ^ k - 1) (2 ^ k)) as Hdm.
  pose proof (Z.mod_pos_bound (40 + size + 2 ^ k - 1) (2 ^ k) Hpos) as Hb.
  split; [rewrite Z.mul_comm; apply Z.mod_mul; lia | lia].
Qed.

Lemma arena__align__size_wraps k size :
  page_size = 2 ^ k -> 0 <= k -> ARENA_REGION_SIZE <= 2 ^ k ->
  2 * 2 ^ k <= 2 ^ SIZE_BITS -> 0 <= size < 2 ^ SIZE_BITS ->
  (2 ^ SIZE_BITS - ARENA_REGION_SIZE < size -> arena__align__size size = 2 ^ k) /\
  (2 ^ SIZE_BITS - ARENA_REGION_SIZE - 2 ^ k < size <= 2 ^ SIZE_BITS - ARENA_REGION_SIZE ->
   arena__align__size size = 0).
Proof.
  intros HP Hk Hhdr Hp Hs.
  assert (Hpos : 0 < 2 ^ k) by (apply Z.pow_pos_nonneg; lia).
  unfold arena__align__size. rewrite HP.
  unfold ARENA_REGION_SIZE, SIZE_BITS in *.
  rewrite (wrap_small (2 ^ k)) by (unfold SIZE_BITS; lia).
  split; intros Hband.
  - assert (E : wrap (40 + size) = 40 + size - 2 ^ 64).
    { unfold wrap, SIZE_BITS. symmetry. apply (Z.mod_unique _ _ 1); lia. }
    rewrite E. rewrite wrap_small by (unfold SIZE_BITS; lia).
    rewrite land_page_mask by (unfold SIZE_BITS; lia).
    replace ((40 + size - 2 ^ 64 + 2 ^ k - 1) / 2 ^ k) with 1; [lia|].
    apply (Z.div_unique _ _ 1 (40 + size - 2 ^ 64 - 1)); lia.
  - destruct (Z.eq_dec size (2 ^ 64 - 40)) as [->|Hne].
    + replace (40 + (2 ^ 64 - 40)) with (2 ^ 64) by lia.
      replace (wrap (2 ^ 64)) with 0 by reflexivity.
      rewrite wrap_small by (unfold SIZE_BITS; lia).
      rewrite land_page_mask by (unfold SIZE_BITS; lia).
      rewrite Z.div_small by lia. lia.
    + rewrite (wrap_small (40 + size)) by (unfold SIZE_BITS; lia).
      assert (E : wrap (40 + size + 2 ^ k - 1) = 40 + size + 2 ^ k - 1 - 2 ^ 64).
      { unfold wrap, SIZE_BITS. symmetry. apply (Z.mod_unique _ _ 1); lia. }
      rewrite E. rewrite land_page_mask by (unfold SIZE_BITS; lia).
      rewrite Z.div_small by lia. lia.
Qed.

(** X2: the sum of header and request is taken modulo [2^64]: a request
    within a header's length of [SIZE_MAX] is sized as a single page, and
    one within a page below that as zero bytes. *)
Theorem align_size_wraps k size :
  page_size = 2 ^ k -> 0 <= k -> ARENA_REGION_SIZE <= 2 ^ k ->
  2 * 2 ^ k <= 2 ^ SIZE_BITS -> 0 <= size < 2 ^ SIZE_BITS ->
  (2 ^ SIZE_BITS - ARENA_REGION_SIZE < size -> arena__align__size size = 2 ^ k) /\
  (2 ^ SIZE_BITS - ARENA_REGION_SIZE - 2 ^ k < size <= 2 ^ SIZE_BITS - ARENA_REGION_SIZE ->
   arena__align__size size = 0).
Proof. exact (arena__align__size_wraps k size). Qed.

(** ** [arena_init] and [arena__new__region] *)

(** X3: the region [arena_init] creates holds the requested size: its
    capacity is the aligned size less the header, at least [size] and
    less than a page more, and an [arena_alloc] of [size] bytes right
    after is served from its start without another mapping. *)
Theorem init_region_holds_request k a size st0 st1 :
  kernel_ok -> page_size = 2 ^ k -> 0 <= k -> 0 <= size ->
  size + ARENA_REGION_SIZE + 2 ^ k <= 2 ^ SIZE_BITS ->
  arena_init a size st0 = Done tt st1 ->
  exists base m st2,
    arenas st1 !! a = Some {| head := base; tail := base |} /\
    mappings st1 !! base = Some m /\
    map_len m = arena__align__size size /\
    capacity (map_hdr m) = arena__align__size size - ARENA_REGION_SIZE /\
    size <= capacity (map_hdr m) < size + 2 ^ k /\
    arena_alloc a size st1 = Done (base + ARENA_REGION_SIZE) st2 /\
    oslog st2 = oslog st1.
Proof.
  intros Hok HP Hk Hs Hmax Hinit.
  apply arena_init_done in Hinit as (ar0 & base & Ha & Har0 & Hkern & ->).
  destruct (kernel_fresh _ _ _ Hok Hkern) as (Hb & _).
  destruct (arena__align__size_bounds k size HP Hk Hs Hmax) as (Hal & _).
  pose proof (initialised_wf st0 a ar0 base (arena__align__size size) Ha Har0 Hb)
    as (_ & ar & Har & Hc & _).
  set (st1 := initialised st0 a base (arena__align__size size)) in *.
  set (m := mkMapping (arena__align__size size)
                      (fresh_region base (arena__align__size size))).
  assert (Hm : mappings st1 !! base = Some m) by apply lookup_insert_eq.
  assert (Har1 : arenas st1 !! a = Some {| head := base; tail := base |})
    by apply lookup_insert_eq.
  rewrite Har1 in Har. injection Har as <-.
  assert (Hcap : capacity (map_hdr m) = arena__align__size size - ARENA_REGION_SIZE).
  { cbn. apply wrap_small. unfold ARENA_REGION_SIZE, SIZE_BITS in *.
    assert (0 < 2 ^ k) by (apply Z.pow_pos_nonneg; lia). lia. }
  exists base, m, (carved st1 base m size).
  split; [exact Har1|]. split; [exact Hm|]. split; [reflexivity|].
  split; [exact Hcap|]. split; [rewrite Hcap; lia|]. split; [|reflexivity].
  rewrite (arena_alloc_hit st1 a _ [] base [] m size Ha Har1 Hc).
  - cbn. f_equal. lia.
  - intros y Hy. inversion Hy.
  - exact Hm.
  - change (remaining (map_hdr m)) with (capacity (map_hdr m)). rewrite Hcap. lia.
Qed.

Lemma arena_alloc_refused st a l size :
  arena_wf st a l ->
  all_regions (mappings st) l (fun r => remaining r < size) ->
  kernel (map_len <$> mappings st) (append_size size) = None ->
  arena_alloc a size st = AssertFail.
Proof.
  intros Hwf Hno Hk. pose proof Hwf as (Ha & ar & Har & Hc & Hl & Hall).
  unfold arena_alloc.
  step (assert_step _ _ (not_null_test _ Ha)).
  step (load_arena_step _ _ _ Ha Har).
  destruct (arena_wf_head _ _ _ _ Hwf Har) as (_ & Hh).
  step (assert_step _ _ (not_null_test _ Hh)).
  unfold get at 1. unfold bind at 1.
  step (alloc_scan_miss _ _ _ _ _ Hc (chain_fuel_enough _ _ _ Hc) Hno).
  unfold arena__append__region. unfold bind at 1. unfold bind at 1.
  now rewrite (new_region_refused _ _ Hk).
Qed.

(** X4: a mapping the kernel refuses stops the program at the assertion
    of [arena__new__region]: in [arena_init] in every state and for any
    arena handle (zeroed, initialised, even [NULL]: the mapping is asked
    for before the handle is used), and in [arena_alloc] and a growing
    [arena_realloc] on an initialised arena none of whose regions has
    room for the request. *)
Theorem refused_mapping_is_fatal st a size :
  (kernel (map_len <$> mappings st) (arena__align__size size) = None ->
   arena_init a size st = AssertFail /\ arena_init NULL size st = AssertFail) /\
  (forall l old_ptr old_size,
     arena_wf st a l ->
     all_regions (mappings st) l (fun r => remaining r < size) ->
     kernel (map_len <$> mappings st) (append_size size) = None ->
     arena_alloc a size st = AssertFail /\
     (old_size <= size -> arena_realloc a old_ptr old_size size st = AssertFail)).
Proof.
  split.
  - intros Hk.
    split; unfold arena_init; unfold bind at 1; now rewrite (new_region_refused _ _ Hk).
  - intros l old_ptr old_size Hwf Hno Hk.
    pose proof (arena_alloc_refused _ _ _ _ Hwf Hno Hk) as Halloc.
    split; [exact Halloc|]. intros Hold. now apply arena_realloc_fails.
Qed.

(** ** [arena__append__region] and the growth path *)

(** X5: with pages of [2^k] bytes, [arena__append__region] maps a whole
    number of pages, never fewer than two, and the region it creates
    holds the request exactly when the request is not within a header's
    length below two pages. *)
Theorem appended_region_fits_iff k size base :
  page_size = 2 ^ k -> ARENA_REGION_SIZE <= 2 ^ k -> 0 <= k -> 0 <= size ->
  2 * 2 ^ k < 2 ^ SIZE_BITS ->
  size + ARENA_REGION_SIZE + 2 ^ k <= 2 ^ SIZE_BITS ->
  append_size size mod 2 ^ k = 0 /\
  2 * 2 ^ k <= append_size size /\
  (size <= capacity (fresh_region base (append_size size)) <->
   ~ (2 * 2 ^ k - ARENA_REGION_SIZE < size < 2 * 2 ^ k)).
Proof.
  intros HP Hhdr Hk Hs Hmax2 Hmax.
  assert (Hpos : 0 < 2 ^ k) by (apply Z.pow_pos_nonneg; lia).
  destruct (arena__align__size_bounds k size HP Hk Hs Hmax) as (Hal & Hmod).
  assert (Hsz : append_size size =
                if size <? 2 * 2 ^ k then 2 * 2 ^ k else arena__align__size size).
  { unfold append_size. now rewrite (default_capacity_pow2 k HP Hk Hmax2). }
  split; [|split].
  - rewrite Hsz. destruct (size <? 2 * 2 ^ k); [|exact Hmod].
    apply Z.mod_mul. lia.
  - rewrite Hsz. destruct (Z.ltb_spec size (2 * 2 ^ k)); unfold ARENA_REGION_SIZE in *; lia.
  - cbn [capacity fresh_region]. split.
    + intros Hfit Hwin.
      destruct (appended_region_short k size HP Hhdr Hk Hmax2 Hwin) as (_ & Hshort). lia.
    + intros Hout. apply (appended_region_holds k size HP Hhdr Hk Hs Hmax2 Hmax). lia.
Qed.

(** X6: a request within a header's length of [SIZE_MAX] that no region
    has room for is answered from a new region of a single page, far
    smaller than the request; a request within a page below that asks
    the kernel for zero bytes and stops at the assertion. *)
Theorem huge_request_wraps k st a l size :
  kernel_ok -> page_size = 2 ^ k -> 0 <= k -> ARENA_REGION_SIZE <= 2 ^ k ->
  4 * 2 ^ k <= 2 ^ SIZE_BITS -> arena_wf st a l ->
  all_regions (mappings st) l (fun r => remaining r < size) ->
  2 ^ SIZE_BITS - ARENA_REGION_SIZE - 2 ^ k < size < 2 ^ SIZE_BITS ->
  (size <= 2 ^ SIZE_BITS - ARENA_REGION_SIZE -> arena_alloc a size st = AssertFail) /\
  (2 ^ SIZE_BITS - ARENA_REGION_SIZE < size ->
   forall base, kernel (map_len <$> mappings st) (2 ^ k) = Some base ->
   exists st' r,
     arena_alloc a size st = Done (base + ARENA_REGION_SIZE) st' /\
     mappings st' !! base = Some (mkMapping (2 ^ k) r) /\
     capacity r = 2 ^ k - ARENA_REGION_SIZE /\ capacity r < size).
Proof.
  intros Hok HP Hk Hhdr Hmax Hwf Hno Hband.
  assert (Hpos : 0 < 2 ^ k) by (apply Z.pow_pos_nonneg; lia).
  assert (Hmax2 : 2 * 2 ^ k < 2 ^ SIZE_BITS) by lia.
  destruct (arena__align__size_wraps k size HP Hk Hhdr) as (Htop & Hzero);
    [lia | unfold ARENA_REGION_SIZE, SIZE_BITS in *; lia |].
  assert (Hsz : append_size size = arena__align__size size).
  { unfold append_size. rewrite (default_capacity_pow2 k HP Hk Hmax2).
    destruct (Z.ltb_spec size (2 * 2 ^ k)); [|reflexivity].
    unfold ARENA_REGION_SIZE, SIZE_BITS in *. lia. }
  split.
  - intros Hle. apply (arena_alloc_refused st a l size Hwf Hno).
    rewrite Hsz, Hzero by lia.
    destruct (kernel (map_len <$> mappings st) 0) as [b|] eqn:E; [|reflexivity].
    destruct (Hok _ _ _ E) as (_ & _ & Hlen & _). lia.
  - intros Hgt base Hkern. specialize (Htop Hgt).
    pose proof Hwf as (Ha & ar & Har & Hc & Hl & Hall).
    destruct (chain_last_next _ _ _ _ Hc Hl) as (_ & mt & Hmt & _).
    destruct (kernel_fresh _ _ _ Hok Hkern) as (Hb & Hfresh).
    assert (Hkern' : kernel (map_len <$> mappings st) (append_size size) = Some base)
      by now rewrite Hsz, Htop.
    exists (grown st a ar mt base (append_size size)), (fresh_region base (2 ^ k)).
    split; [eapply arena_alloc_grow; eauto|].
    rewrite Hsz, Htop. unfold grown. cbn [mappings].
    split.
    { rewrite lookup_insert_ne by congruence. apply lookup_insert_eq. }
    cbn [capacity fresh_region].
    rewrite wrap_small by (unfold ARENA_REGION_SIZE, SIZE_BITS in *; lia).
    unfold ARENA_REGION_SIZE, SIZE_BITS in *. lia.
Qed.

(** X7: a request of zero bytes on an initialised arena always finds room
    in the first region: [arena_alloc] returns that region's current
    [bytes + count] and leaves the whole state as it was, so the pointer
    is the one the next request gets too. *)
Theorem arena_alloc_zero st a ar x l m :
  arena_wf st a (x :: l) -> arenas st !! a = Some ar ->
  mappings st !! x = Some m ->
  head ar = x /\
  arena_alloc a 0 st = Done (bytes (map_hdr m) + count (map_hdr m)) st.
Proof.
  intros Hwf Har Hm. pose proof Hwf as (Ha & ar' & Har' & Hc & Hl & Hall).
  rewrite Har in Har'. injection Har' as <-.
  destruct (Hall x) as (m' & Hm' & (Hcnt & Hrem) & Hty); [left|].
  rewrite Hm in Hm'. injection Hm' as <-.
  split; [now destruct Hc as (-> & _)|].
  rewrite (arena_alloc_hit st a ar [] x l m 0 Ha Har Hc);
    [| intros y Hy; inversion Hy | exact Hm | lia].
  f_equal. unfold carved, with_mappings.
  assert (E : mkMapping (map_len m) (carve (map_hdr m) 0) = m).
  { destruct m as [len [nx cap cnt rem by_]]. unfold carve. cbn in *.
    unfold region_typed in Hty. cbn in Hty.
    rewrite Z.add_0_r, Z.sub_0_r, !wrap_small by lia. reflexivity. }
  rewrite E, (insert_id _ _ _ Hm). apply heap_eta.
Qed.


(** ** [arena_reset] *)

(** X8: on an initialised arena [arena_reset] returns and empties every
    region of the chain: [count] becomes 0 and [remaining] the region's
    [capacity], while links, capacities and buffers stay.  Mappings off
    the chain, the arena, the bytes in memory and the system-call log
    are untouched: nothing is unmapped and nothing is erased. *)
Theorem arena_reset_empties_chain st a l :
  arena_wf st a l ->
  exists st',
    arena_reset a st = Done tt st' /\
    (forall x m, x ∈ l -> mappings st !! x = Some m ->
       exists m', mappings st' !! x = Some m' /\
         count (map_hdr m') = 0 /\
         remaining (map_hdr m') = capacity (map_hdr m) /\
         capacity (map_hdr m') = capacity (map_hdr m) /\
         next (map_hdr m') = next (map_hdr m) /\
         bytes (map_hdr m') = bytes (map_hdr m) /\
         map_len m' = map_len m) /\
    (forall y, y ∉ l -> mappings st' !! y = mappings st !! y) /\
    arenas st' = arenas st /\ mem st' = mem st /\ oslog st' = oslog st /\
    arena_wf st' a l.
Proof.
  intros Hwf. pose proof Hwf as (Ha & ar & Har & Hc & _).
  exists (with_mappings st (reset_all l (mappings st))).
  split; [now apply (arena_reset_step st a ar l)|].
  unfold with_mappings. cbn [mappings arenas mem oslog].
  split; [|split].
  - intros x m Hx Hm. rewrite lookup_reset_all, decide_True by exact Hx.
    rewrite Hm. eexists. split; [reflexivity|]. cbn. repeat split.
  - intros y Hy. now rewrite lookup_reset_all, decide_False by exact Hy.
  - split; [reflexivity|]. split; [reflexivity|]. split; [reflexivity|].
    exact (reset_wf st a l Hwf).
Qed.

(** X9: after [arena_reset] the allocator starts over: a request is
    carved from the very start of the first region whose capacity holds
    it, whatever had been allocated before, and no new region is mapped.
    Blocks handed out before the reset are handed out again. *)
Theorem alloc_after_reset_starts_over st a l1 x l2 m size :
  arena_wf st a (l1 ++ x :: l2) ->
  all_regions (mappings st) l1 (fun r => capacity r < size) ->
  mappings st !! x = Some m -> 0 <= size <= capacity (map_hdr m) ->
  exists st1 st2,
    arena_reset a st = Done tt st1 /\
    arena_alloc a size st1 = Done (bytes (map_hdr m)) st2 /\
    oslog st2 = oslog st.
Proof.
  intros Hwf Hno Hm Hs. pose proof Hwf as (Ha & ar & Har & Hc & _).
  set (st1 := with_mappings st (reset_all (l1 ++ x :: l2) (mappings st))).
  pose proof (reset_wf st a _ Hwf) as Hwf1. fold st1 in Hwf1.
  pose proof Hwf1 as (_ & ar1 & Har1 & Hc1 & _).
  assert (Hx : x ∈ l1 ++ x :: l2) by (apply elem_of_app; right; left).
  assert (Hm1 : mappings st1 !! x = Some (clear_mapping m)).
  { unfold st1, with_mappings. cbn [mappings].
    rewrite lookup_reset_all, decide_True by exact Hx. now rewrite Hm. }
  exists st1, (carved st1 x (clear_mapping m) size).
  split; [now apply (arena_reset_step st a ar)|]. split; [|reflexivity].
  rewrite (arena_alloc_hit st1 a ar1 l1 x l2 (clear_mapping m) size Ha Har1 Hc1).
  - cbn. f_equal. lia.
  - intros y Hy. destruct (Hno y Hy) as (my & Hmy & Hcap).
    exists (clear_mapping my). split; [|exact Hcap].
    unfold st1, with_mappings. cbn [mappings].
    rewrite lookup_reset_all, decide_True by (apply elem_of_app; now left).
    now rewrite Hmy.
  - exact Hm1.
  - cbn. lia.
Qed.

(** ** [arena_destroy] *)

(** X10: once [arena_destroy] has returned, [arena_alloc] and a growing
    [arena_realloc] on that arena stop at [assert(arena->head != NULL)],
    but a shrinking [arena_realloc] has no such check: it returns
    [old_ptr], a pointer into memory that may be unmapped by then. *)
Theorem use_after_destroy st a st' size old_ptr old_size :
  arena_destroy a st = Done tt st' ->
  arena_alloc a size st' = AssertFail /\
  (old_size <= size -> arena_realloc a old_ptr old_size size st' = AssertFail) /\
  (size < old_size -> arena_realloc a old_ptr old_size size st' = Done old_ptr st').
Proof.
  intros H. apply arena_destroy_done in H. pose proof H as (Ha & _).
  pose proof (arena_alloc_dead _ _ size H) as Halloc.
  split; [exact Halloc|]. split.
  - intros Hle. now apply arena_realloc_fails.
  - intros Hlt. now apply arena_realloc_shrink.
Qed.

(** ** [arena_init] on an arena in use *)

(** X11: [arena_init] never releases anything.  Called on an arena that
    is already initialised it maps a new region and points [head] and
    [tail] at it; the regions of the old chain stay mapped, unchanged,
    and can no longer be reached from the arena. *)
Theorem second_init_abandons_chain st a l size st' :
  kernel_ok -> arena_wf st a l -> arena_init a size st = Done tt st' ->
  exists base,
    arenas st' !! a = Some {| head := base; tail := base |} /\
    arena_wf st' a [base] /\ (base ∉ l) /\
    oslog st' = Mmap (arena__align__size size) (Some base) :: oslog st /\
    forall x, x ∈ l ->
      mappings st' !! x = mappings st !! x /\ ~ reaches (mappings st') base x.
Proof.
  intros Hok Hwf Hinit. pose proof Hwf as (_ & ar & Har & Hc & Hl & Hall).
  apply arena_init_done in Hinit as (ar0 & base & Ha & Har0 & Hk & ->).
  destruct (kernel_fresh _ _ _ Hok Hk) as (Hb & Hfresh).
  pose proof (initialised_wf st a ar0 base (arena__align__size size) Ha Har0 Hb) as Hwf'.
  assert (Hbl : base ∉ l).
  { intros Hin. destruct (Hall _ Hin) as (m & Hm & _). congruence. }
  exists base. split; [apply lookup_insert_eq|]. split; [exact Hwf'|].
  split; [exact Hbl|]. split; [reflexivity|].
  intros x Hx. split.
  - unfold initialised. cbn [mappings].
    apply lookup_insert_ne. intros ->. contradiction.
  - intros Hr. destruct Hwf' as (_ & ar' & Har' & Hc' & _).
    cbn in Har'. rewrite lookup_insert_eq in Har'. injection Har' as <-.
    apply (reaches_chain _ _ _ _ Hc') in Hr.
    apply list_elem_of_singleton in Hr as ->. contradiction.
Qed.


(** ** Consecutive allocations *)

Lemma offsets_bounds sizes : forall start i p n,
  Forall (fun n => 0 <= n) sizes ->
  offsets start sizes !! i = Some p -> sizes !! i = Some n ->
  start <= p /\ p + n <= start + total sizes.
Proof.
  induction sizes as [|s sizes IH]; intros start i p n Hnn Hp Hn; [discriminate|].
  apply Forall_cons in Hnn as [Hs Hnn]. pose proof (total_nonneg _ Hnn) as Hrest.
  change (total (s :: sizes)) with (s + total sizes).
  destruct i as [|i]; cbn in *.
  - injection Hp as <-. injection Hn as <-. lia.
  - destruct (IH _ _ _ _ Hnn Hp Hn). lia.
Qed.

Lemma offsets_apart sizes : forall start i j p n q,
  Forall (fun n => 0 <= n) sizes -> (i < j)%nat ->
  offsets start sizes !! i = Some p -> sizes !! i = Some n ->
  offsets start sizes !! j = Some q ->
  p + n <= q.
Proof.
  induction sizes as [|s sizes IH]; intros start i j p n q Hnn Hij Hp Hn Hq;
    [discriminate|].
  apply Forall_cons in Hnn as [Hs Hnn].
  destruct j as [|j]; [lia|]. destruct i as [|i]; cbn in *.
  - injection Hp as <-. injection Hn as <-.
    destruct (sizes !! j) as [k|] eqn:Hk.
    + destruct (offsets_bounds _ _ _ _ _ Hnn Hq Hk). lia.
    + apply lookup_ge_None in Hk. apply lookup_lt_Some in Hq.
      assert (Hlen : length (offsets (start + s) sizes) = length sizes).
      { clear. generalize (start + s). induction sizes; intros; simpl; auto. }
      lia.
  - apply (IH (start + s) i j p n q Hnn); [lia | exact Hp | exact Hn | exact Hq].
Qed.

Lemma allocs_from_head_layout a b l2 sizes : forall st m,
  arena_wf st a (b :: l2) -> mappings st !! b = Some m ->
  Forall (fun n => 0 <= n) sizes -> total sizes <= remaining (map_hdr m) ->
  exists st',
    run a (map Alloc sizes) st =
      Done (offsets (bytes (map_hdr m) + count (map_hdr m)) sizes) st' /\
    oslog st' = oslog st.
Proof.
  induction sizes as [|s sizes IH]; intros st m Hwf Hm Hnn Htot.
  - exists st. split; reflexivity.
  - apply Forall_cons in Hnn as [Hs Hnn]. simpl in Htot.
    pose proof (total_nonneg _ Hnn) as Hrest.
    pose proof Hwf as (Ha & ar & Har & Hc & Hl & Hall).
    destruct (Hall b) as (m0 & Hm0 & Hinv & Hty); [left|].
    rewrite Hm in Hm0. injection Hm0 as <-.
    assert (Hfit : 0 <= s <= remaining (map_hdr m)) by lia.
    destruct (carve_inv _ _ Hinv Hty Hfit) as (Hcnt & Hrem & _).
    destruct (IH (carved st b m s) (mkMapping (map_len m) (carve (map_hdr m) s)))
      as (st' & Hrun & Hlog); auto.
    + eapply carved_wf; eauto. left.
    + unfold carved, with_mappings. cbn. apply lookup_insert_eq.
    + cbn [map_hdr]. lia.
    + exists st'. split; [|exact Hlog].
      cbn [map run do_call offsets].
      assert (Halloc : arena_alloc a s st =
                Done (bytes (map_hdr m) + count (map_hdr m)) (carved st b m s)).
      { apply (arena_alloc_hit st a ar [] b l2 m s); auto.
        - intros y Hy. inversion Hy.
        - lia. }
      step Halloc. step Hrun.
      cbn [map_hdr] in *. rewrite Hcnt.
      replace (bytes (carve (map_hdr m) s)) with (bytes (map_hdr m)) by reflexivity.
      now rewrite Z.add_assoc.
Qed.

(** X12: requests that together fit in what is left of the first region
    are laid out back to back from its [bytes + count]: each block
    starts where the one before ends, so the blocks are pairwise
    disjoint, and all of them lie inside the region's buffer of
    [capacity] bytes.  No system call is made. *)
Theorem allocs_back_to_back st a x l m sizes :
  arena_wf st a (x :: l) -> mappings st !! x = Some m ->
  Forall (fun n => 0 <= n) sizes -> total sizes <= remaining (map_hdr m) ->
  exists st',
    run a (map Alloc sizes) st =
      Done (offsets (bytes (map_hdr m) + count (map_hdr m)) sizes) st' /\
    oslog st' = oslog st /\
    (forall i p n,
       offsets (bytes (map_hdr m) + count (map_hdr m)) sizes !! i = Some p ->
       sizes !! i = Some n ->
       bytes (map_hdr m) <= p /\ p + n <= bytes (map_hdr m) + capacity (map_hdr m)) /\
    (forall i j p n q, (i < j)%nat ->
       offsets (bytes (map_hdr m) + count (map_hdr m)) sizes !! i = Some p ->
       sizes !! i = Some n ->
       offsets (bytes (map_hdr m) + count (map_hdr m)) sizes !! j = Some q ->
       p + n <= q).
Proof.
  intros Hwf Hm Hnn Htot.
  destruct (allocs_from_head_layout a x l sizes st m Hwf Hm Hnn Htot) as (st' & Hrun & Hlog).
  destruct Hwf as (_ & _ & _ & _ & _ & Hall).
  destruct (Hall x) as (m0 & Hm0 & (Hcnt & Hrem) & _); [left|].
  rewrite Hm in Hm0. injection Hm0 as <-.
  exists st'. split; [exact Hrun|]. split; [exact Hlog|]. split.
  - intros i p n Hp Hn. destruct (offsets_bounds _ _ _ _ _ Hnn Hp Hn). lia.
  - intros i j p n q. now apply offsets_apart.
Qed.


(** ** Bytes and mappings *)

Lemma mapping_of_some h p b m :
  mapping_of h p = Some (b, m) -> h !! b = Some m /\ b <= p < b + map_len m.
Proof.
  unfold mapping_of. intros H. apply find_some in H as [Hin Hh].
  apply list_elem_of_In, elem_of_map_to_list in Hin.
  unfold holds in Hh. cbn in Hh. apply andb_prop in Hh as [H1 H2].
  apply Z.leb_le in H1. apply Z.ltb_lt in H2. auto.
Qed.

(** Where mappings do not overlap, an address has one mapping at most. *)
Lemma mapping_of_inside h p b m :
  apart h -> h !! b = Some m -> b <= p < b + map_len m ->
  mapping_of h p = Some (b, m).
Proof.
  intros Hap Hm Hp. destruct (mapping_of h p) as [[b' m']|] eqn:E.
  - apply mapping_of_some in E as [Hm' Hp'].
    destruct (decide (b' = b)) as [->|Hne]; [congruence|].
    destruct (Hap b' m' b m Hm' Hm Hne); lia.
  - unfold mapping_of in E.
    assert (Hin : In (b, m) (map_to_list h)).
    { apply list_elem_of_In. now apply elem_of_map_to_list. }
    pose proof (find_none _ _ E _ Hin) as Hf. unfold holds in Hf. cbn in Hf.
    apply andb_false_iff in Hf as [Hf|Hf];
      [apply Z.leb_gt in Hf | apply Z.ltb_ge in Hf]; lia.
Qed.

Lemma peek_data st p b m :
  apart (mappings st) -> mappings st !! b = Some m ->
  b + ARENA_REGION_SIZE <= p < b + map_len m ->
  peek st p = Some (mem st p).
Proof.
  intros Hap Hm Hp. unfold peek.
  rewrite (mapping_of_inside _ p b m Hap Hm) by (unfold ARENA_REGION_SIZE in Hp; lia).
  destruct (Z.ltb_spec (p - b) ARENA_REGION_SIZE); [lia | reflexivity].
Qed.

Lemma peek_ext st st' p :
  mappings st' = mappings st -> mem st' p = mem st p -> peek st' p = peek st p.
Proof. intros Hm Hp. unfold peek. now rewrite Hm, Hp. Qed.

Lemma load_byte_done p v st st' :
  load_byte p st = Done v st' -> st' = st /\ peek st p = Some v.
Proof.
  unfold load_byte. destruct (peek st p) as [w|]; [|discriminate].
  intros H. injection H as <- <-. auto.
Qed.


(** A write past the header of a mapping changes one byte of [mem] and
    nothing else. *)
Lemma store_byte_data st p v b m :
  apart (mappings st) -> mappings st !! b = Some m ->
  b + ARENA_REGION_SIZE <= p < b + map_len m ->
  store_byte p v st =
  Done tt (mkHeap (arenas st) (mappings st)
                  (fun q => if q =? p then v else mem st q) (oslog st)).
Proof.
  intros Hap Hm Hp. unfold store_byte.
  rewrite (mapping_of_inside _ p b m Hap Hm) by (unfold ARENA_REGION_SIZE in Hp; lia).
  destruct (Z.ltb_spec (p - b) ARENA_REGION_SIZE); [lia | reflexivity].
Qed.

(** ** The copy loop *)

(** A copy whose destination lies past the header of one mapping leaves
    every header alone and writes nowhere else. *)
Lemma copy_bytes_inside n : forall i new_ptr old_ptr st x m st',
  apart (mappings st) -> mappings st !! x = Some m ->
  x + ARENA_REGION_SIZE <= new_ptr + i ->
  new_ptr + i + Z.of_nat n <= x + map_len m ->
  copy_bytes n i new_ptr old_ptr st = Done tt st' ->
  arenas st' = arenas st /\ mappings st' = mappings st /\ oslog st' = oslog st /\
  (forall q, q < new_ptr + i \/ new_ptr + i + Z.of_nat n <= q -> mem st' q = mem st q).
Proof.
  induction n as [|n IH]; intros i new_ptr old_ptr st x m st' Hap Hm Hlo Hhi H.
  - injection H as <-. auto.
  - cbn [copy_bytes] in H. apply bind_done in H as (v & s1 & Hload & H).
    apply load_byte_done in Hload as [-> _].
    apply bind_done in H as ([] & s2 & Hstore & H).
    rewrite (store_byte_data st (new_ptr + i) v x m Hap Hm) in Hstore by lia.
    injection Hstore as <-.
    apply (IH (i + 1) new_ptr old_ptr _ x m st') in H;
      [| exact Hap | exact Hm | cbn; lia | cbn; lia].
    destruct H as (Ha & Hmm & Ho & Hf). cbn in Ha, Hmm, Ho, Hf.
    repeat split; auto.
    intros q Hq. rewrite Hf by lia.
    destruct (Z.eqb_spec q (new_ptr + i)); [lia | reflexivity].
Qed.

(** When the two blocks do not overlap, the destination ends up with the
    bytes the source held. *)
Lemma copy_bytes_copied n : forall i new_ptr old_ptr st x m st',
  apart (mappings st) -> mappings st !! x = Some m ->
  x + ARENA_REGION_SIZE <= new_ptr + i ->
  new_ptr + i + Z.of_nat n <= x + map_len m -> 0 <= i ->
  disjoint_blocks old_ptr (i + Z.of_nat n) new_ptr (i + Z.of_nat n) ->
  copy_bytes n i new_ptr old_ptr st = Done tt st' ->
  forall j, i <= j < i + Z.of_nat n -> peek st' (new_ptr + j) = peek st (old_ptr + j).
Proof.
  induction n as [|n IH]; intros i new_ptr old_ptr st x m st' Hap Hm Hlo Hhi Hi Hd H j Hj;
    [lia|].
  cbn [copy_bytes] in H. apply bind_done in H as (v & s1 & Hload & H).
  apply load_byte_done in Hload as [-> Hv].
  apply bind_done in H as ([] & s2 & Hstore & H).
  rewrite (store_byte_data st (new_ptr + i) v x m Hap Hm) in Hstore by lia.
  injection Hstore as <-.
  set (s1 := mkHeap (arenas st) (mappings st)
                    (fun q => if q =? new_ptr + i then v else mem st q) (oslog st)) in *.
  unfold disjoint_blocks in Hd.
  destruct (Z.eq_dec j i) as [->|Hne].
  - destruct (copy_bytes_inside n (i + 1) new_ptr old_ptr s1 x m st')
      as (_ & Hmm & _ & Hf); [exact Hap | exact Hm | lia | lia | exact H |].
    cbn [mappings] in Hmm.
    rewrite (peek_data st' (new_ptr + i) x m) by (rewrite ?Hmm; auto; lia).
    rewrite Hf by lia. cbn. now rewrite Z.eqb_refl.
  - rewrite (IH (i + 1) new_ptr old_ptr s1 x m st');
      [| exact Hap | exact Hm | lia | lia | lia | unfold disjoint_blocks; lia | exact H | lia].
    apply peek_ext; [reflexivity|]. cbn.
    destruct (Z.eqb_spec (old_ptr + j) (new_ptr + i)); [lia | reflexivity].
Qed.


(** ** Mappings that do not overlap *)

Lemma apart_lens h h' :
  (forall x, map_len <$> (h' !! x) = map_len <$> (h !! x)) -> apart h -> apart h'.
Proof.
  intros E Hap b1 m1 b2 m2 H1 H2 Hne.
  pose proof (E b1) as E1. pose proof (E b2) as E2.
  rewrite H1 in E1. rewrite H2 in E2.
  destruct (h !! b1) as [n1|] eqn:G1; [|discriminate].
  destruct (h !! b2) as [n2|] eqn:G2; [|discriminate].
  cbn in E1, E2. injection E1 as E1. injection E2 as E2. rewrite E1, E2.
  now apply (Hap b1 n1 b2 n2).
Qed.

Lemma apart_sub h h' :
  (forall x m, h' !! x = Some m -> h !! x = Some m) -> apart h -> apart h'.
Proof. intros Hsub Hap b1 m1 b2 m2 H1 H2. apply Hap; auto. Qed.

Lemma apart_update h x m r :
  h !! x = Some m -> apart h -> apart (<[x := mkMapping (map_len m) r]> h).
Proof.
  intros Hm. apply apart_lens. intros y.
  destruct (decide (y = x)) as [->|Hne].
  - now rewrite lookup_insert_eq, Hm.
  - now rewrite lookup_insert_ne by congruence.
Qed.

Lemma apart_new h base len r :
  kernel_ok -> kernel (map_len <$> h) len = Some base ->
  apart h -> apart (<[base := mkMapping len r]> h).
Proof.
  intros Hok Hk Hap. destruct (Hok _ _ _ Hk) as (_ & _ & _ & Hdisj).
  assert (Hd : forall b m, h !! b = Some m ->
                 base + len <= b \/ b + map_len m <= base).
  { intros b m Hb. apply Hdisj. now rewrite lookup_fmap, Hb. }
  intros b1 m1 b2 m2 H1 H2 Hne.
  destruct (decide (b1 = base)) as [->|N1]; destruct (decide (b2 = base)) as [->|N2];
    [congruence | | |].
  - rewrite lookup_insert_eq in H1. injection H1 as <-.
    rewrite lookup_insert_ne in H2 by congruence. cbn. now apply Hd.
  - rewrite lookup_insert_eq in H2. injection H2 as <-.
    rewrite lookup_insert_ne in H1 by congruence. cbn.
    destruct (Hd b1 m1 H1); lia.
  - rewrite lookup_insert_ne in H1 by congruence.
    rewrite lookup_insert_ne in H2 by congruence. now apply (Hap b1 m1 b2 m2).
Qed.

Lemma apart_reset_all l h : apart h -> apart (reset_all l h).
Proof.
  apply apart_lens. intros x. rewrite lookup_reset_all.
  destruct (decide (x ∈ l)); [|reflexivity]. now destruct (h !! x).
Qed.

(** ** The size of the mappings the allocator asks for *)

Lemma arena__align__size_page k size :
  pages k -> 0 < arena__align__size size ->
  ARENA_REGION_SIZE <= arena__align__size size.
Proof.
  intros (HP & Hk & Hh & Hmax) Hpos.
  assert (Hp : 0 < 2 ^ k) by (apply Z.pow_pos_nonneg; lia).
  assert (E : exists q, arena__align__size size = 2 ^ k * q).
  { unfold arena__align__size. cbv zeta. rewrite HP.
    rewrite (wrap_small (2 ^ k)) by lia.
    eexists. apply land_page_mask; [lia | lia | apply wrap_range]. }
  destruct E as (q & E). rewrite E in *.
  assert (Hq : 0 < q) by (apply (Z.mul_pos_cancel_l (2 ^ k)); assumption).
  unfold ARENA_REGION_SIZE in *. nia.
Qed.

Lemma append_size_page k size :
  pages k -> 0 < append_size size -> ARENA_REGION_SIZE <= append_size size.
Proof.
  intros Hpg Hpos. pose proof Hpg as (HP & Hk & Hh & Hmax).
  unfold append_size in *. rewrite (default_capacity_pow2 k HP Hk Hmax) in *.
  destruct (size <? 2 * 2 ^ k); [lia | now apply (arena__align__size_page k)].
Qed.

(** ** What allocation keeps *)

Lemma arena__align__size_range size : 0 <= arena__align__size size < 2 ^ SIZE_BITS.
Proof.
  unfold arena__align__size.
  set (A := wrap (wrap (ARENA_REGION_SIZE + size) + wrap page_size - 1)).
  set (x := Z.lnot (wrap (wrap page_size - 1))).
  assert (E : Z.land A (wrap x) = Z.land A x mod 2 ^ 64).
  { unfold wrap, SIZE_BITS.
    now rewrite <- !Z.land_ones, Z.land_assoc by lia. }
  rewrite E. apply Z.mod_pos_bound. reflexivity.
Qed.

Lemma append_size_range size : 0 <= append_size size < 2 ^ SIZE_BITS.
Proof.
  unfold append_size. destruct (size <? _); [apply wrap_range | apply arena__align__size_range].
Qed.

Lemma fresh_region_at base msz :
  ARENA_REGION_SIZE <= msz < 2 ^ SIZE_BITS ->
  region_at base (mkMapping msz (fresh_region base msz)).
Proof.
  intros H. unfold region_at. cbn.
  rewrite wrap_small by (unfold ARENA_REGION_SIZE in *; lia). auto.
Qed.

Lemma kept_sized st st' l :
  kept st st' l -> sized (mappings st) l -> sized (mappings st') l.
Proof.
  intros Hk Hs x Hx. destruct (Hs x Hx) as (m & Hm & Hlen & Hcap & Hby).
  destruct (Hk x m Hx Hm) as (m' & Hm' & Ec & Eb & El & _).
  exists m'. split; [exact Hm'|]. unfold region_at. rewrite Ec, Eb, El. auto.
Qed.

Lemma kept_refl st l : kept st st l.
Proof. intros x m _ Hm. exists m. repeat split; auto; lia. Qed.


Lemma sized_app h l l' : sized h l -> sized h l' -> sized h (l ++ l').
Proof. intros H1 H2 x Hx. apply elem_of_app in Hx as [Hx|Hx]; auto. Qed.

(** [built] and [kept] only look at the arenas and the mappings. *)
Lemma built_ext st st' a l :
  arenas st' = arenas st -> mappings st' = mappings st -> built st a l -> built st' a l.
Proof.
  intros Ha Hm (Hap & Hwf & Hsz). unfold built, arena_wf in *. now rewrite Ha, Hm.
Qed.

Lemma kept_ext st st1 st2 l :
  mappings st2 = mappings st1 -> kept st st1 l -> kept st st2 l.
Proof. intros Hm Hk. unfold kept in *. now rewrite Hm. Qed.

Lemma stays_ext st st1 st2 :
  mappings st2 = mappings st1 -> stays st st1 -> stays st st2.
Proof. intros Hm Hk. unfold stays in *. now rewrite Hm. Qed.


(** One [arena_alloc] that returns: the chain is the old one, perhaps
    with one new region at its end, no mapping moves, and the block
    returned lies in the usable bytes of a mapping when the request
    [fits]. *)
Lemma arena_alloc_built k st a l size p st' :
  kernel_ok -> pages k -> built st a l -> 0 <= size ->
  arena_alloc a size st = Done p st' ->
  exists l' news,
    built st' a (l ++ l') /\ kept st st' l /\ stays st st' /\
    oslog st' = news ++ oslog st /\ forallb is_mmap news = true /\
    (fits size = true -> addressable st' p size).
Proof.
  intros Hok Hpg (Hap & Hwf & Hsz) Hs H.
  pose proof Hwf as (Ha & ar & Har & Hc & Hl & Hall).
  destruct (first_fit_split (mappings st) size l) as
    [Hno | (l1 & x & l2 & m & -> & Hno & Hm & Hfit)].
  { intros x Hx. destruct (Hall x Hx) as (m & Hm & _). eauto. }
  - destruct (chain_last_next _ _ _ _ Hc Hl) as (Hin & mt & Hmt & _).
    destruct (kernel (map_len <$> mappings st) (append_size size)) as [base|] eqn:Hk.
    + destruct (kernel_fresh _ _ _ Hok Hk) as (Hb & Hfresh).
      destruct (Hok _ _ _ Hk) as (_ & _ & Hlen & _).
      pose proof (append_size_page k size Hpg Hlen) as Hbig.
      pose proof (append_size_range size) as Hrange.
      rewrite (arena_alloc_grow st a ar l (tail ar) mt size base) in H by auto.
      injection H as <- <-.
      assert (Htb : tail ar <> base) by congruence.
      assert (Hkept : kept st (grown st a ar mt base (append_size size)) l).
      { intros y my Hy Hmy. unfold grown. cbn [mappings].
        assert (Hyb : y <> base) by congruence.
        destruct (decide (y = tail ar)) as [->|Hne].
        - rewrite lookup_insert_eq. rewrite Hmt in Hmy. injection Hmy as <-.
          eexists. split; [reflexivity|]. cbn. repeat split. lia.
        - rewrite lookup_insert_ne, lookup_insert_ne by congruence.
          exists my. repeat split; auto. lia. }
      assert (Hnew : mappings (grown st a ar mt base (append_size size)) !! base =
                Some (mkMapping (append_size size) (fresh_region base (append_size size)))).
      { unfold grown. cbn [mappings].
        rewrite lookup_insert_ne by congruence. apply lookup_insert_eq. }
      exists [base], [Mmap (append_size size) (Some base)].
      split; [|split; [exact Hkept|split; [|split; [reflexivity|split; [reflexivity|]]]]].
      * split; [|split].
        -- unfold grown. cbn [mappings]. apply apart_update.
           ++ rewrite lookup_insert_ne by congruence. exact Hmt.
           ++ now apply apart_new.
        -- eapply grown_wf; eauto.
        -- apply sized_app; [eapply kept_sized; eauto|].
           intros y Hy. apply list_elem_of_singleton in Hy as ->.
           eexists. split; [exact Hnew|]. apply fresh_region_at. lia.
      * intros y my Hmy. unfold grown. cbn [mappings].
        assert (Hyb : y <> base) by congruence.
        destruct (decide (y = tail ar)) as [->|Hne].
        -- rewrite lookup_insert_eq. rewrite Hmt in Hmy. injection Hmy as <-.
           eexists. split; reflexivity.
        -- rewrite lookup_insert_ne, lookup_insert_ne by congruence. eauto.
      * intros Hf. unfold fits in Hf. apply Z.leb_le in Hf.
        eexists base, _. split; [exact Hnew|]. cbn [map_len].
        unfold ARENA_REGION_SIZE in *. lia.
    + rewrite (arena_alloc_refused st a l size Hwf Hno Hk) in H. discriminate.
  - rewrite (arena_alloc_hit st a ar l1 x l2 m size Ha Har Hc Hno Hm Hfit) in H.
    injection H as <- <-.
    assert (Hx : x ∈ l1 ++ x :: l2) by (apply elem_of_app; right; left).
    destruct (Hall x Hx) as (m0 & Hm0 & Hinv & Hty).
    rewrite Hm in Hm0. injection Hm0 as <-.
    destruct (Hsz x Hx) as (m0 & Hm0 & Hlen & Hcap & Hby).
    rewrite Hm in Hm0. injection Hm0 as <-.
    destruct (carve_inv _ _ Hinv Hty (conj Hs Hfit)) as (Hcnt & _).
    assert (Hkept : kept st (carved st x m size) (l1 ++ x :: l2)).
    { intros y my Hy Hmy. unfold carved, with_mappings. cbn [mappings].
      destruct (decide (y = x)) as [->|Hne].
      - rewrite lookup_insert_eq. rewrite Hm in Hmy. injection Hmy as <-.
        eexists. split; [reflexivity|]. cbn [map_hdr map_len].
        rewrite Hcnt. repeat split. lia.
      - rewrite lookup_insert_ne by congruence.
        exists my. repeat split; auto. lia. }
    exists [], []. rewrite app_nil_r.
    split; [|split; [exact Hkept|split; [|split; [reflexivity|split; [reflexivity|]]]]].
    + split; [|split].
      * unfold carved, with_mappings. cbn [mappings]. now apply apart_update.
      * eapply carved_wf; eauto.
      * eapply kept_sized; eauto.
    + intros y my Hmy. unfold carved, with_mappings. cbn [mappings].
      destruct (decide (y = x)) as [->|Hne].
      * rewrite lookup_insert_eq. rewrite Hm in Hmy. injection Hmy as <-.
        eexists. split; reflexivity.
      * rewrite lookup_insert_ne by congruence. eauto.
    + intros _. eexists x, _. split.
      { unfold carved, with_mappings. cbn [mappings]. apply lookup_insert_eq. }
      cbn [map_len]. destruct Hinv as (Hc0 & Hrem).
      unfold ARENA_REGION_SIZE in *. lia.
Qed.

(** One [arena_realloc] that returns, for a size that [fits]: the copy
    stays inside the block, so all of the above holds again. *)
Lemma arena_realloc_built k st a l old_ptr old_size new_size p st' :
  kernel_ok -> pages k -> built st a l -> 0 <= old_size -> 0 <= new_size ->
  (new_size <? old_size) || fits new_size = true ->
  arena_realloc a old_ptr old_size new_size st = Done p st' ->
  exists l' news,
    built st' a (l ++ l') /\ kept st st' l /\ stays st st' /\
    oslog st' = news ++ oslog st /\ forallb is_mmap news = true.
Proof.
  intros Hok Hpg Hb Ho Hn Hf H. pose proof Hb as (_ & (Ha & _) & _).
  destruct (Z.ltb_spec new_size old_size) as [Hlt|Hge].
  - rewrite (arena_realloc_shrink _ _ _ _ _ Ha Hlt) in H. injection H as _ <-.
    exists [], []. rewrite app_nil_r. split; [exact Hb|].
    split; [apply kept_refl|]. split; [|split; reflexivity].
    intros y my Hmy. eauto.
  - cbn in Hf.
    apply (arena_realloc_done _ _ _ _ _ _ _ Hge) in H as (st1 & Halloc & Hcopy).
    destruct (arena_alloc_built k st a l new_size p st1 Hok Hpg Hb Hn Halloc)
      as (l' & news & Hb1 & Hk1 & Hs1 & Hlog & Hmm & Haddr).
    destruct (Haddr Hf) as (x & m & Hm & Hlo & _ & Hhi).
    destruct (copy_bytes_inside (Z.to_nat old_size) 0 p old_ptr st1 x m st')
      as (Ea & Em & Eo & _);
      [exact (proj1 Hb1) | exact Hm | lia | rewrite Z2Nat.id by lia; lia | exact Hcopy |].
    exists l', news.
    split; [now apply (built_ext st1)|]. split; [now apply (kept_ext st st1)|].
    split; [now apply (stays_ext st st1)|]. split; [now rewrite Eo | exact Hmm].
Qed.


(** ** [arena_destroy] and [arena__free__region] *)

Lemma unmapped_delete x l : forall h,
  unmapped l (delete x h) = delete x (unmapped l h).
Proof.
  induction l as [|y l IH]; intros h; cbn; [reflexivity|].
  unfold unmapped in IH. rewrite IH. apply delete_delete.
Qed.

Lemma lookup_unmapped l : forall h y,
  unmapped l h !! y = if decide (y ∈ l) then None else h !! y.
Proof.
  induction l as [|x l IH]; intros h y; cbn.
  - rewrite decide_False; [reflexivity | intros H; inversion H].
  - rewrite lookup_delete. unfold unmapped in IH. rewrite IH.
    destruct (decide (x = y)) as [->|Hxy].
    + rewrite decide_True; [reflexivity | apply elem_of_cons; now left].
    + destruct (decide (y ∈ l)) as [Hl|Hl].
      * rewrite decide_True; [reflexivity | apply elem_of_cons; now right].
      * rewrite decide_False; [reflexivity|].
        intros H. apply elem_of_cons in H as [?|?]; [congruence | contradiction].
Qed.

(** [munmap] is called with the full length of the mapping. *)
Lemma free_region_step st x m :
  x <> NULL -> mappings st !! x = Some m -> region_at x m ->
  arena__free__region x st =
  Done tt (mkHeap (arenas st) (delete x (mappings st)) (mem st)
                  (Munmap x (map_len m) true :: oslog st)).
Proof.
  intros Hx Hm (Hlen & Hcap & _). unfold arena__free__region.
  step (assert_step _ _ (not_null_test _ Hx)).
  step (load_region_step _ _ _ Hm).
  assert (E : wrap (ARENA_REGION_SIZE + capacity (map_hdr m)) = map_len m).
  { rewrite Hcap.
    replace (ARENA_REGION_SIZE + (map_len m - ARENA_REGION_SIZE)) with (map_len m) by lia.
    apply wrap_small. unfold ARENA_REGION_SIZE in *. lia. }
  rewrite E. unfold bind, munmap.
  destruct (Z.eqb_spec (map_len m) 0) as [E0|_]; [unfold ARENA_REGION_SIZE in *; lia|].
  reflexivity.
Qed.

Lemma destroy_loop_step l : forall fuel p st,
  chain (mappings st) p l -> sized (mappings st) l -> (length l < fuel)%nat ->
  destroy_loop fuel p st =
  Done tt (mkHeap (arenas st) (unmapped l (mappings st)) (mem st)
                  (rev (munmaps (mappings st) l) ++ oslog st)).
Proof.
  induction l as [|x l IH]; intros fuel p st Hc Hsz Hf;
    (destruct fuel as [|fuel]; [simpl in Hf; lia|]); simpl in *.
  - subst p. now destruct st.
  - pose proof (chain_NoDup _ _ (x :: l) Hc) as Hnd.
    apply NoDup_cons in Hnd as [Hxl _].
    destruct Hc as (-> & Hx & m & Hm & Hc).
    destruct (Z.eqb_spec x NULL) as [E|_]; [contradiction|].
    step (load_region_step _ _ _ Hm).
    destruct (Hsz x) as (m' & Hm' & Hat); [left|].
    rewrite Hm in Hm'. injection Hm' as <-.
    step (free_region_step _ _ _ Hx Hm Hat).
    rewrite (IH fuel (next (map_hdr m))); cbn [mappings arenas mem oslog].
    + rewrite unmapped_delete. f_equal. f_equal.
      rewrite Hm. cbn. rewrite <- app_assoc. cbn. f_equal.
      f_equal. unfold munmaps. apply map_ext_in. intros y Hy.
      rewrite lookup_delete_ne; [reflexivity|].
      intros ->. apply Hxl. now apply list_elem_of_In.
    + eapply chain_ext; [|exact Hc]. intros y my Hy Hmy.
      rewrite lookup_delete_ne by (intros ->; contradiction). eauto.
    + intros y Hy. destruct (Hsz y) as (my & Hmy & Hy'); [now right|].
      exists my. split; [|exact Hy'].
      rewrite lookup_delete_ne by (intros ->; contradiction). exact Hmy.
    + lia.
Qed.

(** [arena_destroy] on a chain of regions as the allocator made them. *)
Lemma arena_destroy_step st a ar l :
  a <> NULL -> arenas st !! a = Some ar ->
  chain (mappings st) (head ar) l -> sized (mappings st) l ->
  arena_destroy a st =
  Done tt (mkHeap (<[a := {| head := NULL; tail := NULL |}]> (arenas st))
                  (unmapped l (mappings st)) (mem st)
                  (rev (munmaps (mappings st) l) ++ oslog st)).
Proof.
  intros Ha Har Hc Hsz. unfold arena_destroy.
  step (load_arena_step _ _ _ Ha Har).
  unfold get at 1. unfold bind at 1.
  step (destroy_loop_step l _ _ _ Hc Hsz (chain_fuel_enough _ _ _ Hc)).
  unfold bind at 1.
  erewrite load_arena_step; [| exact Ha | cbn [arenas]; exact Har].
  unfold bind at 1.
  erewrite store_arena_step; [| exact Ha | cbn [arenas]; exact Har].
  unfold bind at 1. cbn [arenas mappings mem oslog].
  erewrite load_arena_step; [| exact Ha | cbn [arenas]; apply lookup_insert_eq].
  erewrite store_arena_step; [| exact Ha | cbn [arenas]; apply lookup_insert_eq].
  cbn [arenas mappings mem oslog head]. now rewrite insert_insert_eq.
Qed.

Lemma arena_built_chain st a :
  arena_built st a ->
  exists ar l, a <> NULL /\ arenas st !! a = Some ar /\
    chain (mappings st) (head ar) l /\ sized (mappings st) l.
Proof.
  intros (_ & [(l & (Ha & ar & Har & Hc & _) & Hsz)|(Ha & Har)]).
  - exists ar, l. auto.
  - eexists _, []. split; [exact Ha|]. split; [exact Har|].
    split; [reflexivity|]. intros x Hx. inversion Hx.
Qed.

(** ** Arenas built by the allocator *)

Lemma init_built k st a size p st' :
  kernel_ok -> pages k -> apart (mappings st) ->
  do_call a (Init size) st = Done p st' -> arena_built st' a.
Proof.
  intros Hok Hpg Hap H.
  cbn [do_call] in H. apply bind_done in H as ([] & s1 & Hinit & Hret).
  injection Hret as _ <-.
  apply arena_init_done in Hinit as (ar0 & base & Ha & Har & Hk & ->).
  destruct (kernel_fresh _ _ _ Hok Hk) as (Hbase & _).
  destruct (Hok _ _ _ Hk) as (_ & _ & Hlen & _).
  split; [unfold initialised; cbn [mappings]; now apply apart_new|].
  left. exists [base]. split; [eapply initialised_wf; eauto|].
  intros x Hx. apply list_elem_of_singleton in Hx as ->.
  unfold initialised. cbn [mappings]. rewrite lookup_insert_eq.
  eexists. split; [reflexivity|]. apply fresh_region_at.
  pose proof (arena__align__size_range size).
  pose proof (arena__align__size_page k size Hpg Hlen). lia.
Qed.

Lemma do_call_built k st a c p st' :
  kernel_ok -> pages k -> call_ok c = true -> call_fits c = true ->
  arena_built st a -> do_call a c st = Done p st' -> arena_built st' a.
Proof.
  intros Hok Hpg Hc Hfc Hb H. pose proof Hb as (Hap & Hcase).
  destruct c as [size|size|old_ptr old_size new_size| |].
  - eapply init_built; eauto.
  - cbn [do_call] in H. cbn [call_ok] in Hc. unfold size_ok in Hc.
    apply andb_prop in Hc as [Hc _]. apply Z.leb_le in Hc.
    destruct Hcase as [(l & Hwf & Hsz)|Hdead].
    + destruct (arena_alloc_built k st a l size p st' Hok Hpg
                  (conj Hap (conj Hwf Hsz)) Hc H)
        as (l' & news & (Hap' & Hwf' & Hsz') & _).
      split; [exact Hap'|]. left. eauto.
    + rewrite (arena_alloc_dead _ _ _ Hdead) in H. discriminate.
  - cbn [do_call] in H. cbn [call_ok] in Hc. cbn [call_fits] in Hfc.
    apply andb_prop in Hc as [Ho Hn]. unfold size_ok in Ho, Hn.
    apply andb_prop in Ho as [Ho _]. apply Z.leb_le in Ho.
    apply andb_prop in Hn as [Hn _]. apply Z.leb_le in Hn.
    destruct Hcase as [(l & Hwf & Hsz)|Hdead].
    + destruct (arena_realloc_built k st a l old_ptr old_size new_size p st'
                  Hok Hpg (conj Hap (conj Hwf Hsz)) Ho Hn Hfc H)
        as (l' & news & (Hap' & Hwf' & Hsz') & _).
      split; [exact Hap'|]. left. eauto.
    + pose proof Hdead as (Ha & _).
      destruct (Z.lt_ge_cases new_size old_size) as [Hlt|Hge].
      * rewrite (arena_realloc_shrink _ _ _ _ _ Ha Hlt) in H.
        injection H as _ <-. exact Hb.
      * rewrite (arena_realloc_fails _ _ _ _ _ Hge (arena_alloc_dead _ _ _ Hdead)) in H.
        discriminate.
  - cbn [do_call] in H. apply bind_done in H as ([] & s1 & Hreset & Hret).
    injection Hret as _ <-.
    destruct Hcase as [(l & Hwf & Hsz)|Hdead].
    + pose proof Hwf as (Ha & ar & Har & Hch & _).
      rewrite (arena_reset_step _ _ _ _ Ha Har Hch) in Hreset.
      injection Hreset as <-.
      split; [unfold with_mappings; cbn [mappings]; now apply apart_reset_all|].
      left. exists l. split; [now apply reset_wf|].
      intros x Hx. destruct (Hsz x Hx) as (m & Hm & Hat).
      unfold with_mappings. cbn [mappings].
      rewrite lookup_reset_all, decide_True by exact Hx. rewrite Hm.
      eexists. split; [reflexivity|]. exact Hat.
    + destruct Hdead as (Ha & Har).
      rewrite (arena_reset_dead _ _ _ Ha Har eq_refl) in Hreset.
      injection Hreset as <-. exact Hb.
  - cbn [do_call] in H. apply bind_done in H as ([] & s1 & Hd & Hret).
    injection Hret as _ <-.
    destruct (arena_built_chain st a Hb) as (ar & l & Ha & Har & Hc' & Hsz).
    rewrite (arena_destroy_step st a ar l Ha Har Hc' Hsz) in Hd.
    injection Hd as <-. split.
    + cbn [mappings]. apply (apart_sub (mappings st)); [|exact Hap].
      intros x m Hx. rewrite lookup_unmapped in Hx.
      destruct (decide (x ∈ l)); [discriminate | exact Hx].
    + right. split; [exact Ha|]. cbn [arenas]. apply lookup_insert_eq.
Qed.

Lemma run_built k a cs : forall st ps st',
  kernel_ok -> pages k ->
  forallb call_ok cs = true -> forallb call_fits cs = true ->
  arena_built st a -> run a cs st = Done ps st' -> arena_built st' a.
Proof.
  induction cs as [|c cs IH]; intros st ps st' Hok Hpg Hcs Hfs Hb H.
  - injection H as _ <-. exact Hb.
  - cbn [forallb] in Hcs, Hfs. apply andb_prop in Hcs as [Hc Hcs].
    apply andb_prop in Hfs as [Hfc Hfs].
    cbn [run] in H. apply bind_done in H as (p & s1 & Hcall & H).
    apply bind_done in H as (ps' & s2 & Hrun & Hret). injection Hret as _ <-.
    apply (IH s1 ps' s2 Hok Hpg Hcs Hfs); [|exact Hrun].
    exact (do_call_built k _ _ _ _ _ Hok Hpg Hc Hfc Hb Hcall).
Qed.

(** After a sequence of calls that starts with [arena_init]. *)
Lemma run_init_built k a size cs st0 ps st :
  kernel_ok -> pages k -> apart (mappings st0) ->
  forallb call_ok cs = true -> forallb call_fits cs = true ->
  run a (Init size :: cs) st0 = Done ps st -> arena_built st a.
Proof.
  intros Hok Hpg Hap Hcs Hfs Hrun.
  cbn [run] in Hrun. apply bind_done in Hrun as (p & s1 & Hinit & Hrun).
  apply bind_done in Hrun as (ps' & s2 & Hrun & Hret). injection Hret as _ <-.
  apply (run_built k a cs s1 ps' s2 Hok Hpg Hcs Hfs); [|exact Hrun].
  exact (init_built k st0 a size p s1 Hok Hpg Hap Hinit).
Qed.

(** X14: after any sequence of calls that starts with [arena_init] and
    in which every growing [arena_realloc] asks for a size that fits,
    [arena_destroy] returns: no [munmap] fails and no assertion stops it.
    It releases every region of the chain once, in chain order and with
    the full length of its mapping, leaves every other mapping alone,
    and sets [head] and [tail] to [NULL]. *)
Theorem destroy_releases_chain k a size cs st0 ps st :
  kernel_ok -> pages k -> apart (mappings st0) ->
  forallb call_ok cs = true -> forallb call_fits cs = true ->
  run a (Init size :: cs) st0 = Done ps st ->
  exists ar l st',
    arenas st !! a = Some ar /\ chain (mappings st) (head ar) l /\
    arena_destroy a st = Done tt st' /\
    arenas st' !! a = Some {| head := NULL; tail := NULL |} /\
    (forall x, x ∈ l -> mappings st' !! x = None) /\
    (forall y, y ∉ l -> mappings st' !! y = mappings st !! y) /\
    oslog st' = rev (munmaps (mappings st) l) ++ oslog st /\
    mem st' = mem st.
Proof.
  intros Hok Hpg Hap Hcs Hfs Hrun.
  pose proof (run_init_built k a size cs st0 ps st Hok Hpg Hap Hcs Hfs Hrun) as Hb.
  destruct (arena_built_chain st a Hb) as (ar & l & Ha & Har & Hc & Hsz).
  exists ar, l.
  eexists. split; [exact Har|]. split; [exact Hc|].
  split; [exact (arena_destroy_step st a ar l Ha Har Hc Hsz)|].
  cbn [arenas mappings mem oslog].
  split; [apply lookup_insert_eq|].
  split; [intros x Hx; now rewrite lookup_unmapped, decide_True by exact Hx|].
  split; [intros y Hy; now rewrite lookup_unmapped, decide_False by exact Hy|].
  split; reflexivity.
Qed.

(** X18: the invariant of the bookkeeping holds over sequences of calls
    that start with [arena_init] and whose growing reallocations ask for
    sizes that fit: when such a sequence returns, every region reachable
    from [head] has [0 <= count <= capacity] and
    [remaining = capacity - count]. *)
Theorem region_invariants_hold k a size cs st0 ps st ar x :
  kernel_ok -> pages k -> apart (mappings st0) ->
  forallb call_ok cs = true -> forallb call_fits cs = true ->
  run a (Init size :: cs) st0 = Done ps st ->
  arenas st !! a = Some ar -> reaches (mappings st) (head ar) x ->
  exists m, mappings st !! x = Some m /\ region_inv (map_hdr m).
Proof.
  intros Hok Hpg Hap Hcs Hfs Hrun Har Hreach.
  destruct (run_init_built k a size cs st0 ps st Hok Hpg Hap Hcs Hfs Hrun)
    as (_ & Hb).
  eapply arena_inv_regions; [|exact Har|exact Hreach].
  destruct Hb as [(l & Hwf & _)|Hd]; [left; eauto | now right].
Qed.

(** ** [arena_dump] and [arena__region__dump] *)

Lemma region_dump_step st x m :
  x <> NULL -> mappings st !! x = Some m ->
  arena__region__dump x st =
  Done (tl (region_text 0 x (map_hdr m))) st.
Proof.
  intros Hx Hm. unfold arena__region__dump.
  step (assert_step _ _ (not_null_test _ Hx)).
  step (load_region_step _ _ _ Hm). reflexivity.
Qed.

Lemma wrap_succ i : wrap (wrap i + 1) = wrap (i + 1).
Proof. unfold wrap. now rewrite Zplus_mod_idemp_l. Qed.

Lemma dump_loop_step l : forall fuel p i st,
  chain (mappings st) p l -> (length l < fuel)%nat ->
  dump_loop fuel p (wrap i) st = Done (chain_text (mappings st) i l) st.
Proof.
  induction l as [|x l IH]; intros fuel p i st Hc Hf;
    (destruct fuel as [|fuel]; [simpl in Hf; lia|]); simpl in *.
  - now subst p.
  - destruct Hc as (-> & Hx & m & Hm & Hc).
    destruct (Z.eqb_spec x NULL) as [E|_]; [contradiction|].
    step (region_dump_step _ _ _ Hx Hm).
    step (load_region_step _ _ _ Hm).
    rewrite wrap_succ.
    assert (Hf' : (length l < fuel)%nat) by lia.
    step (IH fuel _ (i + 1) st Hc Hf').
    rewrite Hm. reflexivity.
Qed.

(** X15: [arena_dump] prints a frame line, then for every region of the
    chain, in chain order and numbered from 0, its address and the
    fields of its header, then the closing lines; it changes nothing in
    the state.  A zeroed or destroyed arena prints the frame alone, and
    a [NULL] handle stops at the assertion. *)
Theorem arena_dump_lists_chain st a ar l :
  a <> NULL -> arenas st !! a = Some ar -> chain (mappings st) (head ar) l ->
  arena_dump a st =
    Done (Printf (line "=============================") [] ::
          chain_text (mappings st) 0 l ++
          [ Printf (line "=============================") []; Printf (line "") [] ]) st /\
  length (chain_text (mappings st) 0 l) = (7 * length l)%nat /\
  arena_dump NULL st = AssertFail.
Proof.
  intros Ha Har Hc. split; [|split; [|reflexivity]].
  - unfold arena_dump.
    step (assert_step _ _ (not_null_test _ Ha)).
    step (load_arena_step _ _ _ Ha Har).
    unfold get at 1. unfold bind at 1.
    change 0 with (wrap 0) at 1.
    step (dump_loop_step l _ _ 0 st Hc (chain_fuel_enough _ _ _ Hc)).
    reflexivity.
  - clear. generalize 0. induction l as [|x l IH]; intros i; [reflexivity|].
    cbn [chain_text]. rewrite length_app, IH. cbn. lia.
Qed.


(** ** What [arena_realloc] writes *)




(** ** Memory across [arena_realloc] *)




End Proofs.

(** * The concrete machine *)

Lemma top_of_above m :
  65536 <= top_of m /\
  forall b l, m !! b = Some l -> b < top_of m /\ b + l <= top_of m.
Proof.
  unfold top_of.
  apply (map_fold_weak_ind
           (fun r (m : gmap Z Z) =>
              65536 <= r /\ forall b l, m !! b = Some l -> b < r /\ b + l <= r)).
  - split; [reflexivity|]. intros b l H. rewrite lookup_empty in H. discriminate.
  - intros i x m' r Hi (Hr & IH). split; [lia|].
    intros b l Hb. rewrite lookup_insert in Hb.
    destruct (decide (i = b)) as [->|Hne].
    + injection Hb as ->. lia.
    + specialize (IH b l Hb). lia.
Qed.

Lemma bump_kernel_ok : kernel_ok bump_kernel.
Proof.
  intros m len base H. unfold bump_kernel in H.
  destruct (Z.ltb_spec 0 len) as [Hlen|]; [|discriminate].
  destruct (len <? 2 ^ 47); [|discriminate]. injection H as <-.
  destruct (top_of_above m) as (Hlo & Hall).
  split; [unfold NULL; lia|]. split.
  - destruct (m !! top_of m) as [l|] eqn:E; [|reflexivity].
    destruct (Hall _ _ E). lia.
  - split; [exact Hlen|]. intros b l Hb. right. now apply Hall.
Qed.

Lemma bottom_of_below m :
  bottom_of m <= 1048576 /\ forall b l, m !! b = Some l -> bottom_of m <= b.
Proof.
  unfold bottom_of.
  apply (map_fold_weak_ind
           (fun r (m : gmap Z Z) =>
              r <= 1048576 /\ forall b l, m !! b = Some l -> r <= b)).
  - split; [reflexivity|]. intros b l H. rewrite lookup_empty in H. discriminate.
  - intros i x m' r Hi (Hr & IH). split; [lia|].
    intros b l Hb. rewrite lookup_insert in Hb.
    destruct (decide (i = b)) as [->|Hne].
    + lia.
    + specialize (IH b l Hb). lia.
Qed.

Lemma down_kernel_ok : kernel_ok down_kernel.
Proof.
  intros m len base H. unfold down_kernel in H.
  destruct (Z.ltb_spec 0 len) as [Hlen|]; [|discriminate].
  destruct (Z.leb_spec len (bottom_of m - 65536)) as [Hfit|]; [|discriminate].
  injection H as <-. destruct (bottom_of_below m) as (Hhi & Hall).
  split; [unfold NULL; lia|]. split.
  - destruct (m !! (bottom_of m - len)) as [l|] eqn:E; [|reflexivity].
    specialize (Hall _ _ E). lia.
  - split; [exact Hlen|]. intros b l Hb. left. specialize (Hall _ _ Hb). lia.
Qed.

Lemma pages4k : pages page4k 12.
Proof. repeat split; vm_compute; congruence. Qed.

Lemma apartb_sound h : apartb h = true -> apart h.
Proof.
  unfold apartb. intros H b1 m1 b2 m2 H1 H2 Hne.
  rewrite forallb_forall in H.
  assert (I1 : In (b1, m1) (map_to_list h)).
  { apply list_elem_of_In. now apply elem_of_map_to_list. }
  assert (I2 : In (b2, m2) (map_to_list h)).
  { apply list_elem_of_In. now apply elem_of_map_to_list. }
  specialize (H _ I1). rewrite forallb_forall in H. specialize (H _ I2). cbn in H.
  apply orb_prop in H as [H|H]; [apply orb_prop in H as [H|H]|].
  - apply Z.eqb_eq in H. contradiction.
  - apply Z.leb_le in H. auto.
  - apply Z.leb_le in H. auto.
Qed.


(** * The example of the specification, on 4096-byte pages *)

(** C8 (amended): with 4096-byte pages, [arena_init(arena, 1)] maps one
    page and leaves exactly one region, of capacity [4096 - sizeof(Region)];
    [arena_alloc(arena, 100)] and then [arena_alloc(arena, 50)] are both
    served from that region, which ends with [count = 150], and nothing
    else is mapped. *)
Theorem init_one_then_two_allocs kernel st0 a ar0 base :
  kernel_ok kernel -> a <> NULL -> arenas st0 !! a = Some ar0 ->
  kernel (map_len <$> mappings st0) 4096 = Some base ->
  exists st1 st2 st3,
    arena_init page4k kernel a 1 st0 = Done tt st1 /\
    arenas st1 !! a = Some {| head := base; tail := base |} /\
    chain (mappings st1) base [base] /\
    mappings st1 !! base =
      Some (mkMapping 4096
              (mkRegion NULL (4096 - ARENA_REGION_SIZE) 0 (4096 - ARENA_REGION_SIZE)
                        (base + ARENA_REGION_SIZE))) /\
    arena_alloc page4k kernel a 100 st1 = Done (base + ARENA_REGION_SIZE) st2 /\
    arena_alloc page4k kernel a 50 st2 = Done (base + ARENA_REGION_SIZE + 100) st3 /\
    mappings st3 !! base =
      Some (mkMapping 4096
              (mkRegion NULL (4096 - ARENA_REGION_SIZE) 150
                        (4096 - ARENA_REGION_SIZE - 150) (base + ARENA_REGION_SIZE))) /\
    arenas st3 = arenas st1 /\
    oslog st3 = Mmap 4096 (Some base) :: oslog st0.
Proof.
  intros Hok Ha Har Hk.
  destruct (kernel_fresh kernel _ _ _ Hok Hk) as (Hb & _).
  pose proof (arena_init_step page4k kernel st0 a ar0 1 base Ha Har Hk) as Hinit.
  change (arena__align__size page4k 1) with 4096 in Hinit.
  set (st1 := initialised st0 a base 4096) in *.
  set (m1 := mkMapping 4096 (fresh_region base 4096)).
  assert (Har1 : arenas st1 !! a = Some {| head := base; tail := base |})
    by apply lookup_insert_eq.
  assert (Hm1 : mappings st1 !! base = Some m1) by apply lookup_insert_eq.
  assert (Hc1 : chain (mappings st1) base [base]).
  { split; [reflexivity|]. split; [exact Hb|]. exists m1. split; [exact Hm1 | reflexivity]. }
  set (st2 := carved st1 base m1 100).
  set (m2 := mkMapping 4096 (carve (fresh_region base 4096) 100)).
  assert (Hm2 : mappings st2 !! base = Some m2) by apply lookup_insert_eq.
  assert (Hc2 : chain (mappings st2) base [base]).
  { split; [reflexivity|]. split; [exact Hb|]. exists m2. split; [exact Hm2 | reflexivity]. }
  set (st3 := carved st2 base m2 50).
  exists st1, st2, st3.
  split; [exact Hinit|]. split; [exact Har1|]. split; [exact Hc1|].
  split; [exact Hm1|]. split.
  { rewrite (arena_alloc_hit page4k kernel st1 a _ [] base [] m1 100 Ha Har1 Hc1);
      [cbn; f_equal; lia | intros y Hy; inversion Hy | exact Hm1 | cbn; vm_compute; discriminate]. }
  split.
  { rewrite (arena_alloc_hit page4k kernel st2 a _ [] base [] m2 50 Ha Har1 Hc2);
      [cbn; f_equal | intros y Hy; inversion Hy | exact Hm2 | cbn; vm_compute; discriminate]. }
  split; [|split; reflexivity].
  unfold st3, carved. cbn. rewrite lookup_insert_eq. reflexivity.
Qed.

(** * Instances on the concrete machine *)

(** The example of C8 on the concrete machine. *)
Lemma init_one_then_two_allocs_witness :
  exists st1 st2 st3,
    arena_init page4k bump_kernel the_arena 1 boot = Done tt st1 /\
    arenas st1 !! the_arena = Some {| head := first_region; tail := first_region |} /\
    chain (mappings st1) first_region [first_region] /\
    mappings st1 !! first_region =
      Some (mkMapping 4096
              (mkRegion NULL (4096 - ARENA_REGION_SIZE) 0 (4096 - ARENA_REGION_SIZE)
                        (first_region + ARENA_REGION_SIZE))) /\
    arena_alloc page4k bump_kernel the_arena 100 st1 =
      Done (first_region + ARENA_REGION_SIZE) st2 /\
    arena_alloc page4k bump_kernel the_arena 50 st2 =
      Done (first_region + ARENA_REGION_SIZE + 100) st3 /\
    mappings st3 !! first_region =
      Some (mkMapping 4096
              (mkRegion NULL (4096 - ARENA_REGION_SIZE) 150
                        (4096 - ARENA_REGION_SIZE - 150)
                        (first_region + ARENA_REGION_SIZE))) /\
    arenas st3 = arenas st1 /\
    oslog st3 = Mmap 4096 (Some first_region) :: oslog boot.
Proof.
  apply (init_one_then_two_allocs bump_kernel boot the_arena
           {| head := NULL; tail := NULL |} first_region bump_kernel_ok).
  - discriminate.
  - reflexivity.
  - reflexivity.
Defined.

(** C8 as stated fails: the one region [arena_init(arena, 1)] leaves has
    a capacity of 4056 bytes, less than [2 * 4096 - sizeof(Region)]. *)
Lemma init_one_capacity_below_two_pages :
  mappings (booted [Init 1]) !! first_region =
    Some (mkMapping 4096 (mkRegion NULL 4056 0 4056 65576)) /\
  4056 < 2 * 4096 - ARENA_REGION_SIZE.
Proof. split; [vm_compute; reflexivity | reflexivity]. Qed.

(** C4 on the concrete machine: with two regions, a request of 4100
    bytes skips the first region (4056 bytes left) and is carved from
    the second. *)
Lemma arena_alloc_first_fit_witness :
  exists st' m',
    arena_alloc page4k bump_kernel the_arena 4100 (booted [Init 1; Alloc 5000]) =
      Done (69672 + 0) st' /\
    mappings st' !! second_region = Some m' /\
    count (map_hdr m') = 0 + 4100 /\
    remaining (map_hdr m') = 8152 - 4100 /\
    capacity (map_hdr m') = 8152 /\
    next (map_hdr m') = NULL /\
    bytes (map_hdr m') = 69672 /\
    map_len m' = 8192 /\
    (forall y, y <> second_region ->
       mappings st' !! y = mappings (booted [Init 1; Alloc 5000]) !! y) /\
    arenas st' = arenas (booted [Init 1; Alloc 5000]) /\
    mem st' = mem (booted [Init 1; Alloc 5000]) /\
    oslog st' = oslog (booted [Init 1; Alloc 5000]).
Proof.
  apply (arena_alloc_first_fit page4k bump_kernel (booted [Init 1; Alloc 5000])
           the_arena [first_region] second_region []
           (mkMapping 8192 (mkRegion NULL 8152 0 8152 69672)) 4100).
  - apply arena_wfb_sound. vm_compute. reflexivity.
  - apply no_room_sound. vm_compute. reflexivity.
  - vm_compute. reflexivity.
  - cbn. lia.
Defined.

(** C10 on the concrete machine: 5000 bytes do not fit the first region;
    the region appended for them keeps [count = 0]. *)
Lemma arena_alloc_growth_leaves_count_witness :
  exists st' ar' r,
    arena_alloc page4k bump_kernel the_arena 5000 (booted [Init 1]) =
      Done (bytes r + count r) st' /\
    mappings (booted [Init 1]) !! second_region = None /\
    arenas st' !! the_arena = Some ar' /\ tail ar' = second_region /\
    mappings st' !! tail ar' = Some (mkMapping (append_size page4k 5000) r) /\
    count r = 0 /\ remaining r = capacity r /\
    capacity r = wrap (append_size page4k 5000 - ARENA_REGION_SIZE) /\
    arena_wf st' the_arena ([first_region] ++ [second_region]).
Proof.
  apply (arena_alloc_growth_leaves_count page4k bump_kernel (booted [Init 1])
           the_arena [first_region] 5000 second_region bump_kernel_ok).
  - apply arena_wfb_sound. vm_compute. reflexivity.
  - apply no_room_sound. vm_compute. reflexivity.
  - vm_compute. reflexivity.
Defined.

(** C9 on the concrete machine: requests of 100, 50 and 3906 bytes fill
    the 4056 bytes of the initial region exactly, with one [mmap] in all. *)
Lemma allocs_within_capacity_map_nothing_witness :
  exists ps st2,
    run page4k bump_kernel the_arena (map Alloc [100; 50; 3906]) (booted [Init 1]) =
      Done ps st2 /\
    length ps = length [100; 50; 3906] /\
    oslog st2 = oslog (booted [Init 1]) /\
    mmap_calls st2 = S (mmap_calls boot).
Proof.
  apply (allocs_within_capacity_map_nothing page4k bump_kernel the_arena 1 boot
           (booted [Init 1]) {| head := first_region; tail := first_region |}
           (mkMapping 4096 (mkRegion NULL 4056 0 4056 65576)) [100; 50; 3906]
           bump_kernel_ok).
  - vm_compute. reflexivity.
  - vm_compute. reflexivity.
  - vm_compute. reflexivity.
  - repeat constructor; lia.
  - cbn. lia.
Defined.

(** C6 on the concrete machine. *)
Lemma arena_destroy_twice_witness :
  arenas (booted [Init 1; Destroy]) !! the_arena = Some {| head := NULL; tail := NULL |} /\
  arena_destroy the_arena (booted [Init 1; Destroy]) = Done tt (booted [Init 1; Destroy]).
Proof.
  apply (arena_destroy_twice (booted [Init 1]) the_arena (booted [Init 1; Destroy])).
  vm_compute. reflexivity.
Defined.

(** C6 as stated fails: the second [arena_destroy] returns; it is not
    stopped by an assertion. *)
Lemma second_destroy_returns :
  arena_destroy the_arena (booted [Init 1]) = Done tt (booted [Init 1; Destroy]) /\
  returns (arena_destroy the_arena (booted [Init 1; Destroy])) = true.
Proof. split; vm_compute; reflexivity. Qed.



(** * Where the code falls short of its specification *)

(** C1 fails on the code: after [init(1)], two requests of 5000 bytes are
    both answered with the address 69672.  The first one grows the arena
    and leaves the new region's [count] at 0, so the second one is
    carved from the same place.  Both blocks are live and they overlap. *)
Theorem two_live_allocations_overlap :
  result (run page4k bump_kernel the_arena [Init 1; Alloc 5000; Alloc 5000] boot) =
    Some [NULL; 69672; 69672] /\
  blocks [Init 1; Alloc 5000; Alloc 5000] [NULL; 69672; 69672] =
    [(69672, 5000); (69672, 5000)] /\
  overlap (69672, 5000) (69672, 5000) = true.
Proof. repeat split; vm_compute; reflexivity. Qed.

(** C2 fails on the code: for a request of 8191 bytes (one less than two
    pages) [arena__append__region] maps 8192 bytes, not the 12288 that
    [max(ARENA_REGION_DEFAULT_CAPACITY, arena__align__size(size))] gives;
    the region has a capacity of 8152 bytes, and the block returned for
    the request runs past the end of its mapping. *)
Theorem appended_region_too_small :
  append_size page4k 8191 = 8192 /\
  Z.max (ARENA_REGION_DEFAULT_CAPACITY page4k) (arena__align__size page4k 8191) = 12288 /\
  result (run page4k bump_kernel the_arena [Init 1; Alloc 8191] boot) = Some [NULL; 69672] /\
  mappings (booted [Init 1; Alloc 8191]) !! second_region =
    Some (mkMapping 8192 (mkRegion NULL 8152 0 8152 69672)) /\
  8152 < 8191 /\
  inside (booted [Init 1; Alloc 8191]) second_region 69672 8191 = false.
Proof. repeat split; vm_compute; reflexivity. Qed.

(** C3 fails on the code.  With mappings placed top-down, [init(1)],
    [p = alloc(8172)] and [realloc(p, 8172, 8172)] all return.  The
    request of 8172 bytes is less than two pages, so each of the two
    regions mapped for it has 8152 usable bytes only (the defect of C2),
    and the copy loop of [arena_realloc] writes the last 20 bytes of the
    new block past the end of its region: into the header of the region
    that holds the old block, which lies directly above.  That region
    stays reachable from [head], now with [capacity = 4056], [count = 0]
    and [remaining = 8152]. *)
Theorem realloc_breaks_region_invariant :
  kernel_ok down_kernel /\
  exists st m,
    run page4k down_kernel the_arena
        [Init 1; Alloc 8172; Realloc 1036328 8172 8172] boot =
      Done [NULL; 1036328; 1028136] st /\
    arenas st !! the_arena = Some {| head := high_region; tail := low_region |} /\
    reaches (mappings st) high_region mid_region /\
    mappings (down_booted [Init 1; Alloc 8172]) !! mid_region =
      Some (mkMapping 8192 (mkRegion NULL 8152 0 8152 1036328)) /\
    mappings st !! mid_region = Some m /\
    map_hdr m = mkRegion mid_region 4056 0 8152 1036328 /\
    ~ region_inv (map_hdr m).
Proof.
  assert (H : outlook (run page4k down_kernel the_arena
                         [Init 1; Alloc 8172; Realloc 1036328 8172 8172] boot)
                      the_arena [high_region; mid_region] =
              Some ([NULL; 1036328; 1028136],
                    Some {| head := high_region; tail := low_region |},
                    [Some (mkMapping 4096 (mkRegion mid_region 4056 0 4056 1044520));
                     Some (mkMapping 8192 (mkRegion mid_region 4056 0 8152 1036328))]))
    by (vm_compute; reflexivity).
  split; [exact down_kernel_ok|].
  destruct (run page4k down_kernel the_arena
              [Init 1; Alloc 8172; Realloc 1036328 8172 8172] boot)
    as [ps st| | |]; try discriminate H.
  cbn [outlook map] in H. injection H as -> Har H1 H2.
  exists st, (mkMapping 8192 (mkRegion mid_region 4056 0 8152 1036328)).
  split; [reflexivity|]. split; [exact Har|]. split.
  { eapply reaches_next; [discriminate | exact H1 |].
    eapply reaches_here; [discriminate | exact H2]. }
  split; [vm_compute; reflexivity|]. split; [exact H2|]. split; [reflexivity|].
  unfold region_inv. cbn. lia.
Qed.

(** C5 fails on the code.  After [init(1)] and [p = alloc(8191)],
    [realloc(p, 8191, 8191)] maps a region of 8152 usable bytes for the
    new block of 8191 bytes (the defect of C2) and copies 8191 bytes
    into it.  With mappings placed top-down the call returns, but the
    last 39 bytes of the block it returns are the header of the region
    above, the one that holds the old block, and the copy has replaced
    them.  With mappings placed bottom-up the copy leaves the mapped
    memory. *)
Theorem realloc_block_overruns_region :
  kernel_ok down_kernel /\ kernel_ok bump_kernel /\
  (exists st2 m,
     mappings (down_booted [Init 1; Alloc 8191]) !! mid_region =
       Some (mkMapping 8192 (mkRegion NULL 8152 0 8152 1036328)) /\
     arena_realloc page4k down_kernel the_arena 1036328 8191 8191
       (down_booted [Init 1; Alloc 8191]) = Done 1028136 st2 /\
     mappings st2 !! low_region = Some m /\
     map_len m = 8192 /\ capacity (map_hdr m) = 8152 /\
     inside st2 low_region 1028136 8191 = false /\
     mappings st2 !! mid_region =
       Some (mkMapping 8192 (mkRegion mid_region 4056 0 4056 1044520))) /\
  arena_realloc page4k bump_kernel the_arena 69672 8191 8191
    (booted [Init 1; Alloc 8191]) = Fault.
Proof.
  split; [exact down_kernel_ok|]. split; [exact bump_kernel_ok|].
  split; [|vm_compute; reflexivity].
  assert (H : outlook (arena_realloc page4k down_kernel the_arena 1036328 8191 8191
                         (down_booted [Init 1; Alloc 8191]))
                      the_arena [low_region; mid_region] =
              Some (1028136,
                    Some {| head := high_region; tail := low_region |},
                    [Some (mkMapping 8192 (mkRegion NULL 8152 0 8152 1028136));
                     Some (mkMapping 8192 (mkRegion mid_region 4056 0 4056 1044520))]))
    by (vm_compute; reflexivity).
  destruct (arena_realloc page4k down_kernel the_arena 1036328 8191 8191
              (down_booted [Init 1; Alloc 8191]))
    as [p st2| | |]; try discriminate H.
  cbn [outlook map] in H. injection H as -> Har H1 H2.
  exists st2, (mkMapping 8192 (mkRegion NULL 8152 0 8152 1028136)).
  split; [vm_compute; reflexivity|]. split; [reflexivity|]. split; [exact H1|].
  split; [reflexivity|]. split; [reflexivity|]. split; [|exact H2].
  unfold inside. rewrite H1. reflexivity.
Qed.

(** * Further properties on the concrete machine *)

(** X1 at a request of 1000 bytes: one page. *)
Lemma align_size_rounds_up_witness :
  arena__align__size page4k 1000 mod 2 ^ 12 = 0 /\
  1000 + ARENA_REGION_SIZE <= arena__align__size page4k 1000 /\
  arena__align__size page4k 1000 < 1000 + ARENA_REGION_SIZE + 2 ^ 12.
Proof.
  apply (align_size_rounds_up page4k 12 1000); [reflexivity | lia | lia | vm_compute; discriminate].
Defined.

(** X2 at [SIZE_MAX] and at [SIZE_MAX - 39]. *)
Lemma align_size_wraps_witness :
  arena__align__size page4k (2 ^ 64 - 1) = 2 ^ 12 /\
  arena__align__size page4k (2 ^ 64 - 40) = 0.
Proof.
  split.
  - apply (align_size_wraps page4k 12 (2 ^ 64 - 1));
      [reflexivity | lia | vm_compute; discriminate | vm_compute; discriminate
       | split; vm_compute; [discriminate | reflexivity] | vm_compute; reflexivity].
  - apply (align_size_wraps page4k 12 (2 ^ 64 - 40));
      [reflexivity | lia | vm_compute; discriminate | vm_compute; discriminate
       | split; vm_compute; [discriminate | reflexivity]
       | split; vm_compute; [reflexivity | discriminate]].
Defined.

(** X3 at [init(1000)]. *)
Lemma init_region_holds_request_witness :
  exists base m st2,
    arenas (booted [Init 1000]) !! the_arena = Some {| head := base; tail := base |} /\
    mappings (booted [Init 1000]) !! base = Some m /\
    map_len m = arena__align__size page4k 1000 /\
    capacity (map_hdr m) = arena__align__size page4k 1000 - ARENA_REGION_SIZE /\
    1000 <= capacity (map_hdr m) < 1000 + 2 ^ 12 /\
    arena_alloc page4k bump_kernel the_arena 1000 (booted [Init 1000]) =
      Done (base + ARENA_REGION_SIZE) st2 /\
    oslog st2 = oslog (booted [Init 1000]).
Proof.
  apply (init_region_holds_request page4k bump_kernel 12 the_arena 1000 boot
           (booted [Init 1000]) bump_kernel_ok);
    [reflexivity | lia | lia | vm_compute; discriminate | vm_compute; reflexivity].
Defined.

(** X4 with a request of [2^47] bytes, which the kernel of the concrete
    machine refuses: [arena_init] on the zeroed arena of [boot] and on
    [NULL], [arena_alloc] and [arena_realloc] after [init(1)]. *)
Lemma refused_mapping_is_fatal_witness :
  (arena_init page4k bump_kernel the_arena (2 ^ 47) boot = AssertFail /\
   arena_init page4k bump_kernel NULL (2 ^ 47) boot = AssertFail) /\
  arena_alloc page4k bump_kernel the_arena (2 ^ 47) (booted [Init 1]) = AssertFail /\
  arena_realloc page4k bump_kernel the_arena 65576 4 (2 ^ 47) (booted [Init 1]) = AssertFail.
Proof.
  split.
  - apply (proj1 (refused_mapping_is_fatal page4k bump_kernel boot the_arena (2 ^ 47))).
    vm_compute. reflexivity.
  - destruct (proj2 (refused_mapping_is_fatal page4k bump_kernel (booted [Init 1])
                       the_arena (2 ^ 47)) [first_region] 65576 4) as [Halloc Hrealloc].
    + apply arena_wfb_sound. vm_compute. reflexivity.
    + apply no_room_sound. vm_compute. reflexivity.
    + vm_compute. reflexivity.
    + split; [exact Halloc|]. apply Hrealloc. vm_compute. discriminate.
Defined.

(** X5 at a request of 8191 bytes, inside the window, and one of 8152,
    just below it. *)
Lemma appended_region_fits_iff_witness :
  (append_size page4k 8191 mod 2 ^ 12 = 0 /\
   2 * 2 ^ 12 <= append_size page4k 8191 /\
   (8191 <= capacity (fresh_region second_region (append_size page4k 8191)) <->
    ~ (2 * 2 ^ 12 - ARENA_REGION_SIZE < 8191 < 2 * 2 ^ 12))) /\
  8152 <= capacity (fresh_region second_region (append_size page4k 8152)).
Proof.
  split.
  - apply (appended_region_fits_iff page4k 12 8191 second_region);
      [reflexivity | vm_compute; discriminate | lia | lia
       | vm_compute; reflexivity | vm_compute; discriminate].
  - apply (appended_region_fits_iff page4k 12 8152 second_region);
      [reflexivity | vm_compute; discriminate | lia | lia
       | vm_compute; reflexivity | vm_compute; discriminate |].
    unfold ARENA_REGION_SIZE. lia.
Defined.

(** X6 at a request of [SIZE_MAX] bytes. *)
Lemma huge_request_wraps_witness :
  exists st' r,
    arena_alloc page4k bump_kernel the_arena (2 ^ 64 - 1) (booted [Init 1]) =
      Done (second_region + ARENA_REGION_SIZE) st' /\
    mappings st' !! second_region = Some (mkMapping (2 ^ 12) r) /\
    capacity r = 2 ^ 12 - ARENA_REGION_SIZE /\ capacity r < 2 ^ 64 - 1.
Proof.
  apply (huge_request_wraps page4k bump_kernel 12 (booted [Init 1]) the_arena
           [first_region] (2 ^ 64 - 1) bump_kernel_ok).
  - reflexivity.
  - lia.
  - vm_compute. discriminate.
  - vm_compute. discriminate.
  - apply arena_wfb_sound. vm_compute. reflexivity.
  - apply no_room_sound. vm_compute. reflexivity.
  - split; vm_compute; reflexivity.
  - vm_compute. reflexivity.
  - vm_compute. reflexivity.
Defined.

(** X7 after [init(1)] and [alloc(100)]. *)
Lemma arena_alloc_zero_witness :
  head {| head := first_region; tail := first_region |} = first_region /\
  arena_alloc page4k bump_kernel the_arena 0 (booted [Init 1; Alloc 100]) =
    Done (65576 + 100) (booted [Init 1; Alloc 100]).
Proof.
  apply (arena_alloc_zero page4k bump_kernel (booted [Init 1; Alloc 100]) the_arena
           {| head := first_region; tail := first_region |} first_region []
           (mkMapping 4096 (mkRegion NULL 4056 100 3956 65576))).
  - apply arena_wfb_sound. vm_compute. reflexivity.
  - vm_compute. reflexivity.
  - vm_compute. reflexivity.
Defined.


(** X8 on an arena of two regions, the first with 100 bytes in use. *)
Lemma arena_reset_empties_chain_witness :
  exists st',
    arena_reset the_arena (booted [Init 1; Alloc 5000; Alloc 100]) = Done tt st' /\
    (forall x m, x ∈ [first_region; second_region] ->
       mappings (booted [Init 1; Alloc 5000; Alloc 100]) !! x = Some m ->
       exists m', mappings st' !! x = Some m' /\
         count (map_hdr m') = 0 /\
         remaining (map_hdr m') = capacity (map_hdr m) /\
         capacity (map_hdr m') = capacity (map_hdr m) /\
         next (map_hdr m') = next (map_hdr m) /\
         bytes (map_hdr m') = bytes (map_hdr m) /\
         map_len m' = map_len m) /\
    (forall y, y ∉ [first_region; second_region] ->
       mappings st' !! y = mappings (booted [Init 1; Alloc 5000; Alloc 100]) !! y) /\
    arenas st' = arenas (booted [Init 1; Alloc 5000; Alloc 100]) /\
    mem st' = mem (booted [Init 1; Alloc 5000; Alloc 100]) /\
    oslog st' = oslog (booted [Init 1; Alloc 5000; Alloc 100]) /\
    arena_wf st' the_arena [first_region; second_region].
Proof.
  apply (arena_reset_empties_chain (booted [Init 1; Alloc 5000; Alloc 100]) the_arena
           [first_region; second_region]).
  apply arena_wfb_sound. vm_compute. reflexivity.
Defined.

(** X9 on the same arena: after the reset a request of 4100 bytes skips
    the first region (4056 bytes) and gets the start of the second. *)
Lemma alloc_after_reset_starts_over_witness :
  exists st1 st2,
    arena_reset the_arena (booted [Init 1; Alloc 5000; Alloc 100]) = Done tt st1 /\
    arena_alloc page4k bump_kernel the_arena 4100 st1 = Done 69672 st2 /\
    oslog st2 = oslog (booted [Init 1; Alloc 5000; Alloc 100]).
Proof.
  apply (alloc_after_reset_starts_over page4k bump_kernel
           (booted [Init 1; Alloc 5000; Alloc 100]) the_arena
           [first_region] second_region []
           (mkMapping 8192 (mkRegion NULL 8152 0 8152 69672)) 4100).
  - apply arena_wfb_sound. vm_compute. reflexivity.
  - apply (all_regionsb_sound _ _ (fun r => capacity r <? 4100));
      [intros r; apply Z.ltb_lt | vm_compute; reflexivity].
  - vm_compute. reflexivity.
  - cbn. lia.
Defined.

(** X10 after [init(1)] and [destroy]. *)
Lemma use_after_destroy_witness :
  arena_alloc page4k bump_kernel the_arena 8 (booted [Init 1; Destroy]) = AssertFail /\
  (4 <= 8 ->
   arena_realloc page4k bump_kernel the_arena 65576 4 8 (booted [Init 1; Destroy])
     = AssertFail) /\
  (8 < 4 ->
   arena_realloc page4k bump_kernel the_arena 65576 4 8 (booted [Init 1; Destroy])
     = Done 65576 (booted [Init 1; Destroy])).
Proof.
  apply (use_after_destroy page4k bump_kernel (booted [Init 1]) the_arena
           (booted [Init 1; Destroy]) 8 65576 4).
  vm_compute. reflexivity.
Defined.

(** X11 with [init(1)] called twice. *)
Lemma second_init_abandons_chain_witness :
  exists base,
    arenas (booted [Init 1; Init 1]) !! the_arena = Some {| head := base; tail := base |} /\
    arena_wf (booted [Init 1; Init 1]) the_arena [base] /\ (base ∉ [first_region]) /\
    oslog (booted [Init 1; Init 1]) =
      Mmap (arena__align__size page4k 1) (Some base) :: oslog (booted [Init 1]) /\
    forall x, x ∈ [first_region] ->
      mappings (booted [Init 1; Init 1]) !! x = mappings (booted [Init 1]) !! x /\
      ~ reaches (mappings (booted [Init 1; Init 1])) base x.
Proof.
  apply (second_init_abandons_chain page4k bump_kernel (booted [Init 1]) the_arena
           [first_region] 1 (booted [Init 1; Init 1]) bump_kernel_ok).
  - apply arena_wfb_sound. vm_compute. reflexivity.
  - vm_compute. reflexivity.
Defined.

(** X12 with requests of 100, 50 and 3906 bytes after [init(1)]. *)
Lemma allocs_back_to_back_witness :
  exists st',
    run page4k bump_kernel the_arena (map Alloc [100; 50; 3906]) (booted [Init 1]) =
      Done (offsets (65576 + 0) [100; 50; 3906]) st' /\
    oslog st' = oslog (booted [Init 1]) /\
    (forall i p n,
       offsets (65576 + 0) [100; 50; 3906] !! i = Some p ->
       [100; 50; 3906] !! i = Some n ->
       65576 <= p /\ p + n <= 65576 + 4056) /\
    (forall i j p n q, (i < j)%nat ->
       offsets (65576 + 0) [100; 50; 3906] !! i = Some p ->
       [100; 50; 3906] !! i = Some n ->
       offsets (65576 + 0) [100; 50; 3906] !! j = Some q ->
       p + n <= q).
Proof.
  apply (allocs_back_to_back page4k bump_kernel (booted [Init 1]) the_arena
           first_region [] (mkMapping 4096 (mkRegion NULL 4056 0 4056 65576))
           [100; 50; 3906]).
  - apply arena_wfb_sound. vm_compute. reflexivity.
  - vm_compute. reflexivity.
  - repeat constructor; lia.
  - cbn. lia.
Defined.


(** X14 on an arena of two regions, after a reallocation. *)
Lemma destroy_releases_chain_witness :
  exists ar l st',
    arenas (booted [Init 1; Alloc 5000; Realloc 69672 8 16]) !! the_arena = Some ar /\
    chain (mappings (booted [Init 1; Alloc 5000; Realloc 69672 8 16])) (head ar) l /\
    arena_destroy the_arena (booted [Init 1; Alloc 5000; Realloc 69672 8 16]) =
      Done tt st' /\
    arenas st' !! the_arena = Some {| head := NULL; tail := NULL |} /\
    (forall x, x ∈ l -> mappings st' !! x = None) /\
    (forall y, y ∉ l ->
       mappings st' !! y =
       mappings (booted [Init 1; Alloc 5000; Realloc 69672 8 16]) !! y) /\
    oslog st' =
      rev (munmaps (mappings (booted [Init 1; Alloc 5000; Realloc 69672 8 16])) l)
      ++ oslog (booted [Init 1; Alloc 5000; Realloc 69672 8 16]) /\
    mem st' = mem (booted [Init 1; Alloc 5000; Realloc 69672 8 16]).
Proof.
  apply (destroy_releases_chain page4k bump_kernel 12 the_arena 1
           [Alloc 5000; Realloc 69672 8 16]
           boot [NULL; 69672; 65576]
           (booted [Init 1; Alloc 5000; Realloc 69672 8 16])
           bump_kernel_ok pages4k).
  - apply apartb_sound. vm_compute. reflexivity.
  - reflexivity.
  - vm_compute. reflexivity.
  - vm_compute. reflexivity.
Defined.

(** X15 on an arena of two regions. *)
Lemma arena_dump_lists_chain_witness :
  arena_dump the_arena (booted [Init 1; Alloc 5000]) =
    Done (Printf (line "=============================") [] ::
          chain_text (mappings (booted [Init 1; Alloc 5000])) 0
                     [first_region; second_region] ++
          [ Printf (line "=============================") []; Printf (line "") [] ])
         (booted [Init 1; Alloc 5000]) /\
  length (chain_text (mappings (booted [Init 1; Alloc 5000])) 0
                     [first_region; second_region]) = (7 * 2)%nat /\
  arena_dump NULL (booted [Init 1; Alloc 5000]) = AssertFail.
Proof.
  apply (arena_dump_lists_chain (booted [Init 1; Alloc 5000]) the_arena
           {| head := first_region; tail := second_region |}
           [first_region; second_region]).
  - discriminate.
  - vm_compute. reflexivity.
  - apply chainb_sound. vm_compute. reflexivity.
Defined.



(** X18 on the concrete machine: after growth, reallocation and a reset,
    the second region is reachable and its bookkeeping is consistent. *)
Lemma region_invariants_hold_witness :
  reaches (mappings (booted [Init 1; Alloc 5000; Alloc 100;
                             Realloc 65576 8 16; Reset; Alloc 50]))
          first_region second_region /\
  exists m,
    mappings (booted [Init 1; Alloc 5000; Alloc 100;
                      Realloc 65576 8 16; Reset; Alloc 50]) !! second_region = Some m /\
    region_inv (map_hdr m).
Proof.
  assert (Hr : reaches (mappings (booted [Init 1; Alloc 5000; Alloc 100;
                                          Realloc 65576 8 16; Reset; Alloc 50]))
                       first_region second_region).
  { eapply reaches_next; [discriminate | vm_compute; reflexivity |].
    eapply reaches_here; [discriminate | vm_compute; reflexivity]. }
  split; [exact Hr|].
  apply (region_invariants_hold page4k bump_kernel 12 the_arena 1
           [Alloc 5000; Alloc 100; Realloc 65576 8 16; Reset; Alloc 50]
           boot [NULL; 69672; 65576; 65676; NULL; 65576]
           (booted [Init 1; Alloc 5000; Alloc 100; Realloc 65576 8 16; Reset; Alloc 50])
           {| head := first_region; tail := second_region |} second_region
           bump_kernel_ok pages4k).
  - apply apartb_sound. vm_compute. reflexivity.
  - reflexivity.
  - vm_compute. reflexivity.
  - vm_compute. reflexivity.
  - vm_compute. reflexivity.
  - exact Hr.
Defined.
